(** * Hyperledger Fabric 0.6: crypto primitives and node life cycle

    A shallow embedding of
    - [core/crypto/primitives/aes.go] (PKCS7 padding, AES-CBC),
    - [core/crypto/primitives/hash.go] (HMAC and its truncation),
    - the [nodeImpl] life cycle of [core/crypto] ([register], [init]),
    - [getSecHelper] of the [peer node start] command,
    followed by the properties established about them.

    Go values are modelled as follows.  An [int] is a [Z]: every integer the
    embedded code computes is a length, a difference of lengths or a byte
    value, far inside the 64-bit range, so no wrap-around arises.  A [byte] is
    [Byte.byte]; [byte(n)] is [byte.of_Z n] (reduction modulo 256) and
    [int(b)] is [byte.unsigned b].  A call either returns or raises a run-time
    panic ([exec]); a Go [(T, error)] result is a [result T]. *)

From Stdlib Require Import ZArith List String Bool Lia.
From coqutil Require Import Byte.
Import ListNotations.

Local Open Scope Z_scope.

(* ===================================================================== *)
(** ** Go run-time conventions *)
(* ===================================================================== *)

(** Go [error] values.  The sentinels of [core/crypto/utils] are compared by
    identity in the source ([err == utils.ErrKeyStoreAlreadyInitialized]);
    each of them is a constructor of its own.  [errorString] is what
    [errors.New] and [fmt.Errorf] build, [KeySizeError] is the error of
    [aes.NewCipher].  An [errorString] stands for the message: which of two
    values with the same message one holds is not told apart here; where the
    source builds the same message twice, the values are told apart by
    [PeerConfig.errorValue]. *)
Inductive error : Type :=
| ErrKeyStoreAlreadyInitialized
| ErrAlreadyRegistered
| ErrAlreadyInitialized
| ErrRegistrationRequired
| ErrEOF
| ErrUnexpectedEOF
| KeySizeError (n : Z)
| errorString (msg : string).

(** The run-time panics the embedded code can raise. *)
Inductive runtime_error : Type :=
| IndexOutOfRange
| SliceBoundsOutOfRange.

(** A Go result pair [(T, error)]: [Ok v] is [(v, nil)], [Error e] is
    [(nil, e)]. *)
Inductive result (A : Type) : Type :=
| Ok (v : A)
| Error (e : error).
Arguments Ok {A} v.
Arguments Error {A} e.

(** A call returns a value or panics. *)
Inductive exec (A : Type) : Type :=
| Done (v : A)
| Panic (p : runtime_error).
Arguments Done {A} v.
Arguments Panic {A} p.

(** [len(s)] *)
Definition len {A : Type} (s : list A) : Z := Z.of_nat (List.length s).

(** [s[i]]: out of range outside [0 <= i < len(s)]. *)
Definition index {A : Type} (s : list A) (i : Z) : option A :=
  if i <? 0 then None else nth_error s (Z.to_nat i).

(** [s[lo:]]: out of range outside [0 <= lo <= len(s)]. *)
Definition slice_from {A : Type} (s : list A) (lo : Z) : option (list A) :=
  if (lo <? 0) || (len s <? lo) then None else Some (skipn (Z.to_nat lo) s).

(** [s[:hi]] for [hi] within the length of [s]. *)
Definition slice_to {A : Type} (s : list A) (hi : Z) : option (list A) :=
  if (hi <? 0) || (len s <? hi) then None else Some (firstn (Z.to_nat hi) s).

(** A slice together with the cells of its backing array that lie between
    its length and its capacity. [hash.go] reslices with an index chosen by
    the caller, and Go bounds [s[:n]] by the capacity, not by the length. *)
Record slice : Type := mkSlice {
  elems : list byte;
  spare : list byte
}.

Definition slice_len (s : slice) : Z := len (elems s).
Definition slice_cap (s : slice) : Z := len (elems s) + len (spare s).

(** [s[:hi]] on a slice with spare capacity: [0 <= hi <= cap(s)]. *)
Definition reslice_to (s : slice) (hi : Z) : option slice :=
  if (hi <? 0) || (slice_cap s <? hi) then None
  else Some (mkSlice (firstn (Z.to_nat hi) (elems s ++ spare s))
                     (skipn (Z.to_nat hi) (elems s ++ spare s))).

(* ===================================================================== *)
(** ** core/crypto/primitives/aes.go *)
(* ===================================================================== *)

Module Primitives.

(** [aes.BlockSize] *)
Definition BlockSize : Z := 16.

(** [AESKeyLength] *)
Definition AESKeyLength : Z := 32.

Definition byte_eqb (a b : byte) : bool := byte.unsigned a =? byte.unsigned b.

(** [PKCS7Padding]: [bytes.Repeat([]byte{byte(padding)}, padding)] appended
    to [src]. *)
Definition PKCS7Padding (src : list byte) : list byte :=
  let padding := BlockSize - len src mod BlockSize in
  let padtext := repeat (byte.of_Z padding) (Z.to_nat padding) in
  src ++ padtext.

Definition invalid_padding : error := errorString "invalid padding".

(** The loop [for i := 0; i < unpadding; i++ { if pad[i] != byte(unpadding)
    { return nil, err } }]; [todo] counts the iterations that remain. *)
Fixpoint check_pad (pad : list byte) (unpadding : Z) (i : Z) (todo : nat)
  : exec (result unit) :=
  match todo with
  | O => Done (Ok tt)
  | S todo' =>
      match index pad i with
      | None => Panic IndexOutOfRange
      | Some b =>
          if negb (byte_eqb b (byte.of_Z unpadding))
          then Done (Error invalid_padding)
          else check_pad pad unpadding (i + 1) todo'
      end
  end.

(** [PKCS7UnPadding] *)
Definition PKCS7UnPadding (src : list byte) : exec (result (list byte)) :=
  let length := len src in
  match index src (length - 1) with
  | None => Panic IndexOutOfRange
  | Some last =>
      let unpadding := byte.unsigned last in
      if (unpadding >? BlockSize) || (unpadding =? 0)
      then Done (Error invalid_padding)
      else
        match slice_from src (len src - unpadding) with
        | None => Panic SliceBoundsOutOfRange
        | Some pad =>
            match check_pad pad unpadding 0 (Z.to_nat unpadding) with
            | Panic p => Panic p
            | Done (Error e) => Done (Error e)
            | Done (Ok _) =>
                match slice_to src (length - unpadding) with
                | None => Panic SliceBoundsOutOfRange
                | Some out => Done (Ok out)
                end
            end
        end
  end.

(** The block cipher behind [aes.NewCipher(key)]: [crypto/aes] is a library
    of the Go distribution, taken as an interface.  [encryptBlock key] and
    [decryptBlock key] are [Block.Encrypt] and [Block.Decrypt] of the cipher
    built from [key]. *)
Class BlockCipher : Type := {
  encryptBlock : list byte -> list byte -> list byte;
  decryptBlock : list byte -> list byte -> list byte
}.

(** The key lengths [aes.NewCipher] accepts. *)
Definition valid_key_len (n : Z) : bool :=
  (n =? 16) || (n =? 24) || (n =? 32).

(** What the library guarantees about a block cipher: blocks stay blocks,
    and decryption under a key inverts encryption under it. *)
Class BlockCipherLaws (C : BlockCipher) : Prop := {
  encryptBlock_len : forall key b,
    len b = BlockSize -> len (encryptBlock key b) = BlockSize;
  decrypt_encryptBlock : forall key b,
    valid_key_len (len key) = true -> len b = BlockSize ->
    decryptBlock key (encryptBlock key b) = b
}.

(** [aes.NewCipher]: the cipher is identified with its key. *)
Definition NewCipher (key : list byte) : result (list byte) :=
  if valid_key_len (len key) then Ok key else Error (KeySizeError (len key)).

Fixpoint xorBytes (a b : list byte) : list byte :=
  match a, b with
  | x :: a', y :: b' => byte.xor x y :: xorBytes a' b'
  | _, _ => []
  end.

Definition bs : nat := Z.to_nat BlockSize.
Arguments bs : simpl never.

(** [cipher.NewCBCEncrypter(block, iv).CryptBlocks(dst, src)]: each block is
    xored with the previous ciphertext block (the IV at first) and
    encrypted; [blocks] is [len(src) / BlockSize]. *)
Fixpoint cbcEncryptBlocks `{BlockCipher} (key iv src : list byte) (blocks : nat)
  : list byte :=
  match blocks with
  | O => []
  | S blocks' =>
      let c := encryptBlock key (xorBytes (firstn bs src) iv) in
      c ++ cbcEncryptBlocks key c (skipn bs src) blocks'
  end.

(** [cipher.NewCBCDecrypter(block, iv).CryptBlocks(dst, src)]: each block is
    decrypted and xored with the previous ciphertext block (the IV at
    first). *)
Fixpoint cbcDecryptBlocks `{BlockCipher} (key iv src : list byte) (blocks : nat)
  : list byte :=
  match blocks with
  | O => []
  | S blocks' =>
      let c := firstn bs src in
      xorBytes (decryptBlock key c) iv
        ++ cbcDecryptBlocks key c (skipn bs src) blocks'
  end.

(** [rand.Reader], as the bytes it is going to deliver. *)
Definition Reader : Type := list byte.

(** [io.ReadFull(r, buf)] with [len(buf) = n]: exactly [n] bytes, or [EOF]
    when none is left and [ErrUnexpectedEOF] when too few are. *)
Definition ReadFull (r : Reader) (n : Z) : result (list byte) * Reader :=
  if len r <? n
  then (Error (match r with [] => ErrEOF | _ => ErrUnexpectedEOF end), [])
  else (Ok (firstn (Z.to_nat n) r), skipn (Z.to_nat n) r).

(** [CBCEncrypt]: the IV is read into the first block of [ciphertext], the
    encrypted blocks fill the rest. *)
Definition CBCEncrypt `{BlockCipher} (key s : list byte) (rand : Reader)
  : result (list byte) * Reader :=
  if negb (len s mod BlockSize =? 0)
  then (Error (errorString "plaintext is not a multiple of the block size"), rand)
  else
    match NewCipher key with
    | Error e => (Error e, rand)
    | Ok block =>
        match ReadFull rand BlockSize with
        | (Error e, rand') => (Error e, rand')
        | (Ok iv, rand') =>
            (Ok (iv ++ cbcEncryptBlocks block iv s (Z.to_nat (len s / BlockSize))),
             rand')
        end
    end.

(** [CBCDecrypt] *)
Definition CBCDecrypt `{BlockCipher} (key src : list byte) : result (list byte) :=
  match NewCipher key with
  | Error e => Error e
  | Ok block =>
      if len src <? BlockSize
      then Error (errorString "ciphertext too short")
      else
        let iv := firstn bs src in
        let src := skipn bs src in
        if negb (len src mod BlockSize =? 0)
        then Error (errorString "ciphertext is not a multiple of the block size")
        else Ok (cbcDecryptBlocks block iv src (Z.to_nat (len src / BlockSize)))
  end.

(* ===================================================================== *)
(** ** core/crypto/primitives/hash.go *)
(* ===================================================================== *)

(** [hmac.New(GetDefaultHash(), key)], [mac.Write(x)], [mac.Sum(nil)]:
    [crypto/hmac] and the configured hash are libraries, taken as an
    interface.  [macSum key x] is the slice [mac.Sum(nil)] returns. *)
Class MAC : Type := {
  macSum : list byte -> list byte -> slice
}.

(** [HMAC] *)
Definition HMAC `{MAC} (key x : list byte) : slice :=
  macSum key x.

(** [HMACTruncated]: [mac.Sum(nil)[:truncation]].  The Go function has one
    result, a [[]byte]; it has no error result. *)
Definition HMACTruncated `{MAC} (key x : list byte) (truncation : Z) : exec slice :=
  match reslice_to (macSum key x) truncation with
  | None => Panic SliceBoundsOutOfRange
  | Some t => Done t
  end.

(** [HMACAESTruncated] *)
Definition HMACAESTruncated `{MAC} (key x : list byte) : exec slice :=
  HMACTruncated key x AESKeyLength.

(** [CBCPKCS7Encrypt] *)
Definition CBCPKCS7Encrypt `{BlockCipher} (key src : list byte) (rand : Reader)
  : result (list byte) * Reader :=
  CBCEncrypt key (PKCS7Padding src) rand.

(** [CBCPKCS7Decrypt] *)
Definition CBCPKCS7Decrypt `{BlockCipher} (key src : list byte)
  : exec (result (list byte)) :=
  match CBCDecrypt key src with
  | Error err => Done (Error err)
  | Ok pt =>
      match PKCS7UnPadding pt with
      | Panic p => Panic p
      | Done (Error err) => Done (Error err)
      | Done (Ok original) => Done (Ok original)
      end
  end.

(** [Block.Decrypt] writes one block for one block. *)
Class BlockDecryptLen (C : BlockCipher) : Prop := {
  decryptBlock_len : forall key b,
    len b = BlockSize -> len (decryptBlock key b) = BlockSize
}.

End Primitives.

(* ===================================================================== *)
(** ** Sequencing of Go statements *)
(* ===================================================================== *)

(** Statements that read and write a state [S]. *)
Definition State (S A : Type) : Type := S -> A * S.

Definition ret {S A : Type} (a : A) : State S A := fun s => (a, s).

Definition bind {S A B : Type} (m : State S A) (k : A -> State S B) : State S B :=
  fun s => let (a, s') := m s in k a s'.

Definition get {S : Type} : State S S := fun s => (s, s).

Definition modify {S : Type} (f : S -> S) : State S unit := fun s => (tt, f s).

(** The body of a Go function whose last result is an [error]: a statement
    either goes on with a value or leaves the function with [return err].
    The state written so far is kept in both cases. *)
Definition Method (S A : Type) : Type := State S (result A).

Definition go_on {S A : Type} (a : A) : Method S A := ret (Ok a).

Definition return_err {S A : Type} (e : error) : Method S A := ret (Error e).

Definition and_then {S A B : Type} (m : Method S A) (k : A -> Method S B) : Method S B :=
  fun s =>
    match m s with
    | (Ok a, s') => k a s'
    | (Error e, s') => (Error e, s')
    end.

(** A statement that cannot leave the function. *)
Definition stmt {S A : Type} (m : State S A) : Method S A :=
  fun s => let (a, s') := m s in (Ok a, s').

(** [err := f(...)]: the callee's [error] result becomes a value of the
    caller, [nil] being [None]. *)
Definition call {S : Type} (m : Method S unit) : Method S (option error) :=
  fun s =>
    match m s with
    | (Ok _, s') => (Ok None, s')
    | (Error e, s') => (Ok (Some e), s')
    end.

(** [if err != nil { handler }] *)
Definition if_err {S : Type} (err : option error) (handler : error -> Method S unit)
  : Method S unit :=
  match err with
  | Some e => handler e
  | None => go_on tt
  end.

Declare Scope go_scope.
Delimit Scope go_scope with go.
Notation "x <- m ;; k" := (and_then m (fun x => k))
  (at level 61, m at next level, right associativity) : go_scope.
Notation "m ;; k" := (and_then m (fun _ => k))
  (at level 61, right associativity) : go_scope.

Declare Scope state_scope.
Delimit Scope state_scope with state.
Notation "x <- m ;; k" := (bind m (fun x => k))
  (at level 61, m at next level, right associativity) : state_scope.
Notation "m ;; k" := (bind m (fun _ => k))
  (at level 61, right associativity) : state_scope.

(* ===================================================================== *)
(** ** core/crypto: the node life cycle *)
(* ===================================================================== *)

Module Crypto.

(** [NodeType]: the three roles of a node. *)
Inductive NodeType : Type :=
| NodeClient
| NodePeer
| NodeValidator.

(** What the node's logger receives. *)
Inductive arg : Type :=
| AString (s : string)
| AError (e : error)
| ANodeType (t : NodeType).

Inductive logRecord : Type :=
| LogError (msg : string)
| LogErrorf (format : string) (args : list arg)
| LogDebugf (format : string) (args : list arg).

(** [nodeImpl].  The two life-cycle flags and the entity type are written by
    the methods embedded below.  [fields] stands for the rest of the struct
    ([conf], [ks], the certificate pools, the enrollment material,
    [eciesSPI]) together with what these reach outside the process (the
    key-store file, the certificate authority); [log] is the output of the
    node's logger. *)
Record nodeImpl (W : Type) : Type := mkNode {
  isRegistered : bool;
  isInitialized : bool;
  eType : NodeType;
  fields : W;
  log : list logRecord
}.
Arguments mkNode {W}.
Arguments isRegistered {W}.
Arguments isInitialized {W}.
Arguments eType {W}.
Arguments fields {W}.
Arguments log {W}.

(** The methods of [nodeImpl] that [register] and [init] call and that are
    declared in other files of the package.  In the file at hand
    [setRegistered] and [setInitialized] are the only writers of the two
    flags, so these methods range over [fields]. *)
Class NodeInternals (W : Type) : Type := {
  initConfiguration : string -> Method W unit;
  initKeyStore : list byte -> Method W unit;
  registerCryptoEngine : string -> string -> Method W unit;
  initCryptoEngine : Method W unit
}.

(** [registerFunc] and [initalizationFunc]: the role-specific hooks. *)
Definition registerFunc (W : Type) : Type :=
  NodeType -> string -> list byte -> string -> string -> Method W unit.
Definition initalizationFunc (W : Type) : Type :=
  NodeType -> string -> list byte -> Method W unit.

Section Methods.
Context {W : Type} `{NodeInternals W}.
Local Open Scope go_scope.

(** Runs a method of the other files, or a hook, on [fields]. *)
Definition on_fields {A : Type} (m : Method W A) : Method (nodeImpl W) A :=
  fun node =>
    let (r, w) := m (fields node) in
    (r, mkNode (isRegistered node) (isInitialized node) (eType node) w (log node)).

Definition logger (r : logRecord) : Method (nodeImpl W) unit :=
  stmt (modify (fun node =>
    mkNode (isRegistered node) (isInitialized node) (eType node) (fields node)
           (log node ++ [r]))).

(** [node.eType = eType] *)
Definition set_eType (t : NodeType) : Method (nodeImpl W) unit :=
  stmt (modify (fun node =>
    mkNode (isRegistered node) (isInitialized node) t (fields node) (log node))).

Definition IsInitialized : Method (nodeImpl W) bool :=
  stmt (fun node => (isInitialized node, node)).

Definition setInitialized : Method (nodeImpl W) unit :=
  stmt (modify (fun node =>
    mkNode (isRegistered node) true (eType node) (fields node) (log node))).

Definition IsRegistered : Method (nodeImpl W) bool :=
  stmt (fun node => (isRegistered node, node)).

Definition setRegistered : Method (nodeImpl W) unit :=
  stmt (modify (fun node =>
    mkNode true (isInitialized node) (eType node) (fields node) (log node))).

(** [nodeRegister] *)
Definition nodeRegister (eType : NodeType) (name : string) (pwd : list byte)
  (enrollID enrollPWD : string) : Method (nodeImpl W) unit :=
  err <- call (on_fields (registerCryptoEngine enrollID enrollPWD)) ;;
  if_err err (fun err =>
    logger (LogErrorf "Failed registering node crypto engine [%s]." [AError err]) ;;
    return_err err) ;;
  go_on tt.

(** [register] *)
Definition register (eType : NodeType) (name : string) (pwd : list byte)
  (enrollID enrollPWD : string) (regFunc : option (registerFunc W))
  : Method (nodeImpl W) unit :=
  set_eType eType ;;
  err <- call (on_fields (initConfiguration name)) ;;
  if_err err (fun err =>
    logger (LogErrorf "Failed initiliazing configuration [%s]: [%s]."
                      [AString enrollID; AError err]) ;;
    return_err err) ;;
  err <- call (on_fields (initKeyStore pwd)) ;;
  if_err err (fun err =>
    match err with
    | ErrKeyStoreAlreadyInitialized => logger (LogError "Keystore already initialized.")
    | _ => logger (LogErrorf "Failed initiliazing keystore [%s]." [AError err])
    end ;;
    return_err err) ;;
  registered <- IsRegistered ;;
  (if registered : bool then return_err ErrAlreadyRegistered else go_on tt) ;;
  initialized <- IsInitialized ;;
  (if initialized : bool then return_err ErrAlreadyInitialized else go_on tt) ;;
  err <- call (nodeRegister eType name pwd enrollID enrollPWD) ;;
  if_err err return_err ;;
  match regFunc with
  | Some regFunc =>
      err <- call (on_fields (regFunc eType name pwd enrollID enrollPWD)) ;;
      if_err err return_err
  | None => go_on tt
  end ;;
  setRegistered ;;
  logger (LogDebugf "Registration of node [%s] with name [%s] completed"
                    [ANodeType eType; AString name]) ;;
  go_on tt.

(** [nodeInit] *)
Definition nodeInit (eType : NodeType) (name : string) (pwd : list byte)
  : Method (nodeImpl W) unit :=
  err <- call (on_fields initCryptoEngine) ;;
  if_err err (fun err =>
    logger (LogErrorf "Failed initiliazing crypto engine [%s]. %s"
                      [AError err; AError ErrRegistrationRequired]) ;;
    return_err err) ;;
  go_on tt.

(** [init] *)
Definition init (eType : NodeType) (name : string) (pwd : list byte)
  (initFunc : option (initalizationFunc W)) : Method (nodeImpl W) unit :=
  set_eType eType ;;
  err <- call (on_fields (initConfiguration name)) ;;
  if_err err (fun err =>
    logger (LogErrorf "Failed initiliazing configuration: [%s]" [AError err]) ;;
    return_err err) ;;
  err <- call (on_fields (initKeyStore pwd)) ;;
  if_err err (fun err =>
    match err with
    | ErrKeyStoreAlreadyInitialized => logger (LogError "Keystore already initialized.")
    | _ => logger (LogErrorf "Failed initiliazing keystore [%s]." [AError err])
    end ;;
    return_err err) ;;
  initialized <- IsInitialized ;;
  (if initialized : bool then return_err ErrAlreadyInitialized else go_on tt) ;;
  err <- call (nodeInit eType name pwd) ;;
  if_err err return_err ;;
  match initFunc with
  | Some initFunc =>
      err <- call (on_fields (initFunc eType name pwd)) ;;
      if_err err return_err
  | None => go_on tt
  end ;;
  setInitialized ;;
  go_on tt.

End Methods.

(** Vocabulary for the statements about [register] and [init]. *)

(** What the logger receives when the key store cannot be initialized. *)
Definition keystore_log (e : error) : logRecord :=
  match e with
  | ErrKeyStoreAlreadyInitialized => LogError "Keystore already initialized."
  | _ => LogErrorf "Failed initiliazing keystore [%s]." [AError e]
  end.

(** The role-specific hook, when there is one. *)
Definition run_hook {W : Type} (hook : option (Method W unit)) : Method W unit :=
  match hook with
  | Some f => f
  | None => go_on tt
  end.

(** A caller's requests to one node, served in order. *)
Inductive request (W : Type) : Type :=
| Register (t : NodeType) (name : string) (pwd : list byte)
           (enrollID enrollPWD : string) (regFunc : option (registerFunc W))
| Init (t : NodeType) (name : string) (pwd : list byte)
       (initFunc : option (initalizationFunc W)).
Arguments Register {W}.
Arguments Init {W}.

Definition serve_request {W : Type} `{NodeInternals W} (r : request W)
  : Method (nodeImpl W) unit :=
  match r with
  | Register t name pwd enrollID enrollPWD regFunc =>
      register t name pwd enrollID enrollPWD regFunc
  | Init t name pwd initFunc => init t name pwd initFunc
  end.

(** The node after a sequence of requests, whatever each returned. *)
Fixpoint serve_requests {W : Type} `{NodeInternals W} (rs : list (request W))
  (node : nodeImpl W) : nodeImpl W :=
  match rs with
  | [] => node
  | r :: rs' => serve_requests rs' (snd (serve_request r node))
  end.

End Crypto.

(* ===================================================================== *)
(** ** peer node start: getSecHelper *)
(* ===================================================================== *)

Module Node.

(** The calls into package [crypto] that register or initialize a node. *)
Inductive cryptoCall : Type :=
| CallRegisterValidator (name : string) (enrollID enrollPWD : string)
| CallInitValidator (name : string)
| CallRegisterPeer (name : string) (enrollID enrollPWD : string)
| CallInitPeer (name : string).

(** What [getSecHelper] reaches outside the files at hand: [viper], package
    [core] and the constructors of package [crypto], over a state [Env] of
    their own.  [Peer] is a non-nil [crypto.Peer]. *)
Class Collaborators (Env Peer : Type) : Type := {
  core_SecurityEnabled : State Env bool;
  viper_GetString : string -> State Env string;
  viper_GetBool : string -> State Env bool;
  crypto_RegisterValidator :
    string -> list byte -> string -> string -> State Env (option error);
  crypto_InitValidator :
    string -> list byte -> State Env (option Peer * option error);
  crypto_RegisterPeer :
    string -> list byte -> string -> string -> State Env (option error);
  crypto_InitPeer :
    string -> list byte -> State Env (option Peer * option error)
}.

(** The package-level variables the call reads and writes: [once] of this
    package, [configurationCached] and [validatorEnabled] of package [peer]
    (the other values [peer.CacheConfiguration] caches are not read here);
    [calls] records the calls made into package [crypto]. *)
Record process (Env : Type) : Type := mkProcess {
  once_done : bool;
  configurationCached : bool;
  validatorEnabled : bool;
  calls : list cryptoCall;
  env : Env
}.
Arguments mkProcess {Env}.
Arguments once_done {Env}.
Arguments configurationCached {Env}.
Arguments validatorEnabled {Env}.
Arguments calls {Env}.
Arguments env {Env}.

Section GetSecHelper.
Context {Env Peer : Type} `{Collaborators Env Peer}.
Local Open Scope state_scope.

Definition on_env {A : Type} (m : State Env A) : State (process Env) A :=
  fun p =>
    let (a, e) := m (env p) in
    (a, mkProcess (once_done p) (configurationCached p) (validatorEnabled p)
                  (calls p) e).

Definition record_call (c : cryptoCall) : State (process Env) unit :=
  modify (fun p =>
    mkProcess (once_done p) (configurationCached p) (validatorEnabled p)
              (calls p ++ [c]) (env p)).

(** [peer.CacheConfiguration], as far as [ValidatorEnabled] depends on it. *)
Definition CacheConfiguration : State (process Env) unit :=
  v <- on_env (viper_GetBool "peer.validator.enabled") ;;
  modify (fun p => mkProcess (once_done p) true v (calls p) (env p)).

(** [peer.ValidatorEnabled] *)
Definition ValidatorEnabled : State (process Env) bool :=
  p <- get ;;
  (if configurationCached p then ret tt else CacheConfiguration) ;;
  p <- get ;;
  ret (validatorEnabled p).

(** [once.Do(f)]: [f] runs if no call of [Do] has completed before, and the
    [Once] is marked when [f] returns.  The closure passed in the source
    assigns to variables of the enclosing call; [f] takes and returns
    them. *)
Definition once_Do {L : Type} (f : L -> State (process Env) L) (locals : L)
  : State (process Env) L :=
  fun p =>
    if once_done p then (locals, p)
    else
      let (locals', p') := f locals p in
      (locals', mkProcess true (configurationCached p') (validatorEnabled p')
                          (calls p') (env p')).

(** The function literal handed to [once.Do]. *)
Definition closure (locals : option Peer * option error)
  : State (process Env) (option Peer * option error) :=
  let (secHelper, err) := locals in
  security <- on_env core_SecurityEnabled ;;
  if security : bool then
    enrollID <- on_env (viper_GetString "security.enrollID") ;;
    enrollSecret <- on_env (viper_GetString "security.enrollSecret") ;;
    validator <- ValidatorEnabled ;;
    if validator : bool then
      record_call (CallRegisterValidator enrollID enrollID enrollSecret) ;;
      err <- on_env (crypto_RegisterValidator enrollID [] enrollID enrollSecret) ;;
      match err with
      | Some _ => ret (secHelper, err)
      | None =>
          record_call (CallInitValidator enrollID) ;;
          r <- on_env (crypto_InitValidator enrollID []) ;;
          ret r
      end
    else
      record_call (CallRegisterPeer enrollID enrollID enrollSecret) ;;
      err <- on_env (crypto_RegisterPeer enrollID [] enrollID enrollSecret) ;;
      match err with
      | Some _ => ret (secHelper, err)
      | None =>
          record_call (CallInitPeer enrollID) ;;
          r <- on_env (crypto_InitPeer enrollID []) ;;
          ret r
      end
  else ret (secHelper, err).

(** [getSecHelper]: [secHelper] and [err] are variables of the call, [nil]
    when it starts. *)
Definition getSecHelper : State (process Env) (option Peer * option error) :=
  let secHelper : option Peer := None in
  let err : option error := None in
  once_Do closure (secHelper, err).

(** [n] calls of [getSecHelper] in a row: what each returned, first call
    first. *)
Fixpoint getSecHelper_calls (n : nat)
  : State (process Env) (list (option Peer * option error)) :=
  match n with
  | O => ret []
  | S n' =>
      r <- getSecHelper ;;
      rs <- getSecHelper_calls n' ;;
      ret (r :: rs)
  end.

End GetSecHelper.

(** The calls into package [crypto] one attempt can make, with what the
    attempt then returns: none, and [(nil, nil)]; a registration alone, and
    its error with no helper; a registration followed by the initialization
    of the same role under the same name. *)
Definition attempt_shape {Peer : Type} (l : list cryptoCall)
  (r : option Peer * option error) : Prop :=
  match l with
  | [] => r = (None, None)
  | [CallRegisterValidator n i _] => n = i /\ fst r = None /\ snd r <> None
  | [CallRegisterPeer n i _] => n = i /\ fst r = None /\ snd r <> None
  | [CallRegisterValidator n i _; CallInitValidator n'] => n = i /\ n' = n
  | [CallRegisterPeer n i _; CallInitPeer n'] => n = i /\ n' = n
  | _ => False
  end.

End Node.

(* ===================================================================== *)
(** ** core/comm: the cached TLS setting *)
(* ===================================================================== *)

Module Comm.

(** The package variables [configurationCached] and [tlsEnabled], the
    booleans [viper.GetBool] answers with, and what [commLogger] has
    received. *)
Record package : Type := mkPackage {
  configurationCached : bool;
  tlsEnabled : bool;
  viper_GetBool : string -> bool;
  logged : list (string * error)
}.

(** [CacheConfiguration]: its named result [err] is never assigned. *)
Definition CacheConfiguration : State package (option error) :=
  fun p =>
    (None,
     mkPackage true (viper_GetBool p "peer.tls.enabled") (viper_GetBool p) (logged p)).

(** [cacheConfiguration] *)
Definition cacheConfiguration : State package unit :=
  (err <- CacheConfiguration ;;
   match err with
   | Some err =>
       modify (fun p =>
         mkPackage (configurationCached p) (tlsEnabled p) (viper_GetBool p)
                   (logged p ++ [("Execution continues after CacheConfiguration() failure : %s"%string, err)]))
   | None => ret tt
   end)%state.

(** [TLSEnabled] *)
Definition TLSEnabled : State package bool :=
  (p <- get ;;
   (if configurationCached p then ret tt else cacheConfiguration) ;;
   p <- get ;;
   ret (tlsEnabled p))%state.

(** The configuration changes under the package, as [viper.Set] does. *)
Definition reconfigure (v : string -> bool) (p : package) : package :=
  mkPackage (configurationCached p) (tlsEnabled p) v (logged p).

End Comm.

(* ===================================================================== *)
(** ** core/peer: the cached configuration *)
(* ===================================================================== *)

Module PeerConfig.

(** [pb.PeerEndpoint_Type] *)
Inductive PeerEndpoint_Type : Type :=
| PeerEndpoint_UNDEFINED
| PeerEndpoint_VALIDATOR
| PeerEndpoint_NON_VALIDATOR.

(** [pb.PeerEndpoint], with the [Name] of its [ID]. *)
Record PeerEndpoint : Type := mkPeerEndpoint {
  ID_Name : string;
  Address : string;
  Type_ : PeerEndpoint_Type
}.

(** What [viper] answers with. *)
Record viperConfig : Type := mkViper {
  GetBool : string -> bool;
  GetString : string -> string;
  GetInt : string -> Z
}.

(** The functions of package [net], of [fmt] and of another file of this
    package that [CacheConfiguration] calls.  [Errorf format err] is the
    message of [fmt.Errorf(format, err)]; [GetLocalIP] is the address of the
    host, which stays the same during one call. *)
Class Host : Type := {
  SplitHostPort : string -> result (string * string);
  JoinHostPort : string -> string -> string;
  GetLocalIP : string;
  Errorf : string -> error -> error
}.

(** An error value built by [fmt.Errorf].  Go compares such values by
    identity: two calls build two values that carry the same message and
    differ under [==].  [ident] numbers the values in the order in which
    they are built, [content] is the message. *)
Record errorValue : Type := mkErrorValue {
  ident : nat;
  content : error
}.

(** [a == b] on two such values. *)
Definition same_error (a b : errorValue) : bool :=
  Nat.eqb (ident a) (ident b).

Inductive logRecord : Type :=
| LogInfof (format : string) (a : string)
| LogErrorf (format : string) (e : errorValue).

(** The package variables, the configuration, the output of [peerLogger]
    and the number of error values built so far. *)
Record package : Type := mkPackage {
  configurationCached : bool;
  localAddress : string;
  localAddressError : option errorValue;
  peerEndpoint : option PeerEndpoint;
  peerEndpointError : option errorValue;
  syncStateSnapshotChannelSize : Z;
  syncStateDeltasChannelSize : Z;
  syncBlocksChannelSize : Z;
  validatorEnabled : bool;
  securityEnabled : bool;
  viper : viperConfig;
  log : list logRecord;
  errorsBuilt : nat
}.

Section Cache.
Context `{Host}.
Local Open Scope state_scope.

Definition logger (r : logRecord) : State package unit :=
  modify (fun p =>
    mkPackage (configurationCached p) (localAddress p) (localAddressError p)
              (peerEndpoint p) (peerEndpointError p)
              (syncStateSnapshotChannelSize p) (syncStateDeltasChannelSize p)
              (syncBlocksChannelSize p) (validatorEnabled p) (securityEnabled p)
              (viper p) (log p ++ [r]) (errorsBuilt p)).

(** [fmt.Errorf(format, err)]: a new value each time. *)
Definition new_error (format : string) (err : error) : State package errorValue :=
  fun p =>
    (mkErrorValue (errorsBuilt p) (Errorf format err),
     mkPackage (configurationCached p) (localAddress p) (localAddressError p)
               (peerEndpoint p) (peerEndpointError p)
               (syncStateSnapshotChannelSize p) (syncStateDeltasChannelSize p)
               (syncBlocksChannelSize p) (validatorEnabled p) (securityEnabled p)
               (viper p) (log p) (S (errorsBuilt p))).

(** The closure [getLocalAddress]. *)
Definition getLocalAddress : State package (string * option errorValue) :=
  p <- get ;;
  if GetBool (viper p) "peer.addressAutoDetect" then
    match SplitHostPort (GetString (viper p) "peer.address") with
    | Error err =>
        err <- new_error "Error auto detecting Peer's address: %s" err ;;
        ret (""%string, Some err)
    | Ok (_, port) =>
        let peerAddress := JoinHostPort GetLocalIP port in
        logger (LogInfof "Auto detected peer address: %s" peerAddress) ;;
        ret (peerAddress, None)
    end
  else ret (GetString (viper p) "peer.address", None).

(** The closure [getPeerEndpoint]. *)
Definition getPeerEndpoint
  : State package (option PeerEndpoint * option errorValue) :=
  r <- getLocalAddress ;;
  let (peerAddress, err) := r in
  match err with
  | Some err => ret (None, Some err)
  | None =>
      p <- get ;;
      let peerType :=
        if GetBool (viper p) "peer.validator.enabled"
        then PeerEndpoint_VALIDATOR else PeerEndpoint_NON_VALIDATOR in
      ret (Some (mkPeerEndpoint (GetString (viper p) "peer.id") peerAddress peerType),
           None)
  end.

(** [CacheConfiguration] *)
Definition CacheConfiguration : State package (option errorValue) :=
  la <- getLocalAddress ;;
  pe <- getPeerEndpoint ;;
  modify (fun p =>
    mkPackage true (fst la) (snd la) (fst pe) (snd pe)
              (GetInt (viper p) "peer.sync.state.snapshot.channelSize")
              (GetInt (viper p) "peer.sync.state.deltas.channelSize")
              (GetInt (viper p) "peer.sync.blocks.channelSize")
              (GetBool (viper p) "peer.validator.enabled")
              (GetBool (viper p) "security.enabled")
              (viper p) (log p) (errorsBuilt p)) ;;
  p <- get ;;
  match localAddressError p with
  | Some err => ret (Some err)
  | None =>
      match peerEndpointError p with
      | Some err => ret (Some err)
      | None => ret None
      end
  end.

(** [cacheConfiguration] *)
Definition cacheConfiguration : State package unit :=
  err <- CacheConfiguration ;;
  match err with
  | Some err =>
      logger (LogErrorf "Execution continues after CacheConfiguration() failure : %s" err)
  | None => ret tt
  end.

Definition cached {A : Type} (read : package -> A) : State package A :=
  p <- get ;;
  (if configurationCached p then ret tt else cacheConfiguration) ;;
  p <- get ;;
  ret (read p).

(** [GetLocalAddress] *)
Definition GetLocalAddress : State package (string * option errorValue) :=
  cached (fun p => (localAddress p, localAddressError p)).

(** [GetPeerEndpoint] *)
Definition GetPeerEndpoint
  : State package (option PeerEndpoint * option errorValue) :=
  cached (fun p => (peerEndpoint p, peerEndpointError p)).

(** [SyncStateSnapshotChannelSize] *)
Definition SyncStateSnapshotChannelSize : State package Z :=
  cached syncStateSnapshotChannelSize.

(** [SyncStateDeltasChannelSize] *)
Definition SyncStateDeltasChannelSize : State package Z :=
  cached syncStateDeltasChannelSize.

(** [SyncBlocksChannelSize] *)
Definition SyncBlocksChannelSize : State package Z :=
  cached syncBlocksChannelSize.

(** [ValidatorEnabled] *)
Definition ValidatorEnabled : State package bool :=
  cached validatorEnabled.

(** [SecurityEnabled] *)
Definition SecurityEnabled : State package bool :=
  cached securityEnabled.

(** The configuration changes under the package, as [viper.Set] does. *)
Definition reconfigure (v : viperConfig) (p : package) : package :=
  mkPackage (configurationCached p) (localAddress p) (localAddressError p)
            (peerEndpoint p) (peerEndpointError p)
            (syncStateSnapshotChannelSize p) (syncStateDeltasChannelSize p)
            (syncBlocksChannelSize p) (validatorEnabled p) (securityEnabled p)
            v (log p) (errorsBuilt p).

End Cache.

(** [q] holds, marked as cached, the values [CacheConfiguration] reads
    straight from the [viper] of [p]. *)
Definition settings_cached (p q : package) : Prop :=
  configurationCached q = true /\
  syncStateSnapshotChannelSize q
  = GetInt (viper p) "peer.sync.state.snapshot.channelSize" /\
  syncStateDeltasChannelSize q
  = GetInt (viper p) "peer.sync.state.deltas.channelSize" /\
  syncBlocksChannelSize q = GetInt (viper p) "peer.sync.blocks.channelSize" /\
  validatorEnabled q = GetBool (viper p) "peer.validator.enabled" /\
  securityEnabled q = GetBool (viper p) "security.enabled" /\
  viper q = viper p.

End PeerConfig.

(* ===================================================================== *)
(** ** Stand-ins for the collaborators *)
(* ===================================================================== *)

Module Stub.

(** A block cipher to run the CBC code on: every byte of the block is xored
    with the first byte of the key. *)
Definition xorCipher : Primitives.BlockCipher := {|
  Primitives.encryptBlock key b := map (fun x => byte.xor x (hd Byte.x00 key)) b;
  Primitives.decryptBlock key b := map (fun x => byte.xor x (hd Byte.x00 key)) b
|}.

(** A keyed tag of 32 bytes in a buffer of the same capacity. *)
Definition paddedMAC : Primitives.MAC := {|
  Primitives.macSum key x :=
    mkSlice (firstn 32 (key ++ x ++ repeat Byte.x00 32)) []
|}.

(** A hash of 20 bytes is too short for an AES key. *)
Definition shortMAC : Primitives.MAC := {|
  Primitives.macSum key x := mkSlice (firstn 20 (key ++ x ++ repeat Byte.x00 20)) []
|}.

(** Modelled from the spec: the configuration, key store and crypto engine
    behind [nodeImpl]; [initConfiguration], [initKeyStore],
    [registerCryptoEngine] and [initCryptoEngine] are declared outside the
    files at hand.  The key store is as section 4.3 describes it: [init]
    "fails with AlreadyInitialized if called twice against the same identity
    without an intervening destroy"; the crypto engine is as section 8 has
    it: initialization "before a successful register fails (enrollment
    material absent)".  With [reopen] the key store follows the
    "init-or-open" reading of section 4.4 instead: a store that exists is
    opened again.  [engines] counts the crypto engines built. *)
Record store : Type := mkStore {
  conf : option string;
  ksInitialized : bool;
  enrollment : option (string * string);
  engines : nat
}.

Definition storeNode (reopen : bool) : Crypto.NodeInternals store := {|
  Crypto.initConfiguration name := fun w =>
    if String.eqb name ""
    then (Error (errorString "no configuration"), w)
    else (Ok tt, mkStore (Some name) (ksInitialized w) (enrollment w) (engines w));
  Crypto.initKeyStore pwd := fun w =>
    if ksInitialized w && negb reopen
    then (Error ErrKeyStoreAlreadyInitialized, w)
    else (Ok tt, mkStore (conf w) true (enrollment w) (engines w));
  Crypto.registerCryptoEngine enrollID enrollPWD := fun w =>
    if String.eqb enrollPWD ""
    then (Error (errorString "enrollment refused"), w)
    else (Ok tt, mkStore (conf w) (ksInitialized w) (Some (enrollID, enrollPWD))
                         (engines w));
  Crypto.initCryptoEngine := fun w =>
    match enrollment w with
    | None => (Error ErrRegistrationRequired, w)
    | Some _ => (Ok tt, mkStore (conf w) (ksInitialized w) (enrollment w)
                                (S (engines w)))
    end
|}.

Definition emptyStore : store := mkStore None false None 0.

Definition freshNode : Crypto.nodeImpl store :=
  Crypto.mkNode false false Crypto.NodeClient emptyStore [].

(** A node that is not registered yet and whose key store is initialized,
    as a failed registration leaves it. *)
Definition halfRegistered : Crypto.nodeImpl store :=
  Crypto.mkNode false false Crypto.NodeClient
                (mkStore (Some "alice"%string) true None 0) [].

(** A node whose key store already holds the enrollment material of
    [vp0]. *)
Definition enrolled : Crypto.nodeImpl store :=
  Crypto.mkNode false false Crypto.NodePeer
                (mkStore None false (Some ("vp0"%string, "secret"%string)) 0) [].

(** A hook that always fails. *)
Definition failingHook : Crypto.registerFunc store :=
  fun _ _ _ _ _ w => (Error (errorString "hook failed"), w).

(** The configuration and the certificate authority a peer process sees. *)
Record peerEnv : Type := mkPeerEnv {
  securityEnabled : bool;
  validator : bool;
  enrollID : string;
  enrollSecret : string;
  caAccepts : bool
}.

Definition enroll (e : peerEnv) : option error :=
  if caAccepts e then None else Some (errorString "enrollment refused").

Definition peerCollaborators : Node.Collaborators peerEnv string := {|
  Node.core_SecurityEnabled := fun e => (securityEnabled e, e);
  Node.viper_GetString key := fun e =>
    (if String.eqb key "security.enrollID" then enrollID e
     else if String.eqb key "security.enrollSecret" then enrollSecret e
     else ""%string, e);
  Node.viper_GetBool key := fun e =>
    (String.eqb key "peer.validator.enabled" && validator e, e);
  Node.crypto_RegisterValidator name pwd id secret := fun e => (enroll e, e);
  Node.crypto_InitValidator name pwd := fun e => ((Some name, None), e);
  Node.crypto_RegisterPeer name pwd id secret := fun e => (enroll e, e);
  Node.crypto_InitPeer name pwd := fun e => ((Some name, None), e)
|}.

Definition freshProcess (e : peerEnv) : Node.process peerEnv :=
  Node.mkProcess false false false [] e.

(** The text of an error, for the errors the stand-ins build. *)
Definition error_text (e : error) : string :=
  match e with
  | errorString msg => msg
  | _ => ""%string
  end.

(** [fmt.Sprintf(format, a)] for a format that ends in its one verb,
    ["%s"]. *)
Definition sprintf_s (format a : string) : string :=
  (substring 0 (String.length format - 2) format ++ a)%string.

(** A host at 10.0.0.5 whose [SplitHostPort] accepts the one address
    ["0.0.0.0:7051"] and finds no port in any other. *)
Definition host : PeerConfig.Host := {|
  PeerConfig.SplitHostPort addr :=
    if String.eqb addr "0.0.0.0:7051"
    then Ok ("0.0.0.0"%string, "7051"%string)
    else Error (errorString ("address " ++ addr ++ ": missing port in address"));
  PeerConfig.JoinHostPort h port := (h ++ ":" ++ port)%string;
  PeerConfig.GetLocalIP := "10.0.0.5"%string;
  PeerConfig.Errorf format err := errorString (sprintf_s format (error_text err))
|}.

(** A validator's configuration with address detection, on a good or on a
    bad [peer.address]. *)
Definition peerViper (address : string) (validator : bool) : PeerConfig.viperConfig :=
  PeerConfig.mkViper
    (fun key => String.eqb key "peer.addressAutoDetect"
                || (String.eqb key "peer.validator.enabled" && validator))
    (fun key => if String.eqb key "peer.address" then address
                else if String.eqb key "peer.id" then "vp0"%string
                else ""%string)
    (fun _ => 10).

(** Package [peer] before any of its functions has run. *)
Definition uncached (v : PeerConfig.viperConfig) : PeerConfig.package :=
  PeerConfig.mkPackage false "" None None None 0 0 0 false false v [] 0.

End Stub.

(* ===================================================================== *)
(** * Properties *)
(* ===================================================================== *)

(** ** Slices and bytes *)

Lemma len_nonneg {A : Type} (s : list A) : 0 <= len s.
Proof. unfold len. lia. Qed.

Lemma len_app {A : Type} (s t : list A) : len (s ++ t) = len s + len t.
Proof. unfold len. rewrite length_app. lia. Qed.

Lemma len_repeat {A : Type} (x : A) (n : nat) : len (repeat x n) = Z.of_nat n.
Proof. unfold len. now rewrite repeat_length. Qed.

Lemma index_app_r {A : Type} (s t : list A) (i : Z) :
  len s <= i -> index (s ++ t) i = index t (i - len s).
Proof.
  unfold index, len. intros Hi.
  destruct (Z.ltb_spec i 0); [lia|].
  destruct (Z.ltb_spec (i - Z.of_nat (List.length s)) 0); [lia|].
  rewrite nth_error_app2 by lia. f_equal. lia.
Qed.

Lemma index_repeat {A : Type} (x : A) (n : nat) (i : Z) :
  0 <= i < Z.of_nat n -> index (repeat x n) i = Some x.
Proof.
  unfold index. intros Hi.
  destruct (Z.ltb_spec i 0); [lia|].
  apply nth_error_repeat. lia.
Qed.

Lemma index_in_range {A : Type} (s : list A) (i : Z) :
  0 <= i < len s -> exists x, index s i = Some x.
Proof.
  unfold index, len. intros Hi.
  destruct (Z.ltb_spec i 0); [lia|].
  destruct (nth_error s (Z.to_nat i)) eqn:E; [eauto|].
  apply nth_error_None in E. lia.
Qed.

Lemma unsigned_of_Z_small (z : Z) : 0 <= z < 256 -> byte.unsigned (byte.of_Z z) = z.
Proof.
  intros Hz. rewrite byte.unsigned_of_Z. unfold byte.wrap.
  apply Z.mod_small. change (2 ^ 8) with 256. lia.
Qed.

(** ** PKCS7 *)

Section PKCS7.
Import Primitives.

Lemma skipn_index {A : Type} (s : list A) (i : Z) (x : A) :
  index s i = Some x ->
  skipn (Z.to_nat i) s = x :: skipn (Z.to_nat (i + 1)) s.
Proof.
  unfold index. destruct (Z.ltb_spec i 0); [discriminate|].
  replace (Z.to_nat (i + 1)) with (S (Z.to_nat i)) by lia.
  generalize (Z.to_nat i). clear. intros n. revert s.
  induction n as [|n IH]; intros [|y s]; simpl; try discriminate.
  - now intros [= ->].
  - intros Hx. now apply IH.
Qed.

(** The loop accepts exactly when the [todo] bytes from position [i] on all
    equal [byte(unpadding)]; inside the slice it never panics. *)
Lemma check_pad_spec (todo : nat) : forall (pad : list byte) (p i : Z),
  0 <= i -> i + Z.of_nat todo <= len pad ->
  check_pad pad p i todo =
    if forallb (fun b => byte_eqb b (byte.of_Z p))
               (firstn todo (skipn (Z.to_nat i) pad))
    then Done (Ok tt) else Done (Error invalid_padding).
Proof.
  induction todo as [|todo IH]; intros pad p i Hi Hlen; simpl.
  - reflexivity.
  - destruct (index_in_range pad i) as [b Hb]; [lia|].
    rewrite Hb, (skipn_index _ _ _ Hb). simpl.
    destruct (byte_eqb b (byte.of_Z p)); simpl; [|reflexivity].
    apply IH; lia.
Qed.

Lemma existsb_negb_forallb {A : Type} (f : A -> bool) (l : list A) :
  existsb (fun x => negb (f x)) l = negb (forallb f l).
Proof.
  induction l as [|x l IH]; simpl; [reflexivity|].
  rewrite IH. now destruct (f x).
Qed.

Lemma forallb_pointwise {A : Type} (f g : A -> bool) (l : list A) :
  (forall x, f x = g x) -> forallb f l = forallb g l.
Proof.
  intros Hfg. induction l as [|x l IH]; simpl; [reflexivity|].
  now rewrite Hfg, IH.
Qed.

Lemma index_last {A : Type} (s : list A) (d : A) :
  1 <= len s -> index s (len s - 1) = Some (last s d).
Proof.
  unfold index, len. intros Hs.
  destruct (Z.ltb_spec (Z.of_nat (List.length s) - 1) 0); [lia|].
  replace (Z.to_nat (Z.of_nat (List.length s) - 1)) with (pred (List.length s)) by lia.
  destruct s as [|x s]; [simpl in Hs; lia|].
  assert (Hne : x :: s <> []) by discriminate.
  destruct (exists_last Hne) as [s' [y ->]].
  rewrite last_last, length_app. simpl.
  rewrite nth_error_app2 by lia.
  replace (pred (List.length s' + 1) - List.length s')%nat with O by lia.
  reflexivity.
Qed.

(** A padding count of [0] or above the block size is refused. *)
Lemma PKCS7UnPadding_count_refused (src : list byte) (lastb : byte) :
  index src (len src - 1) = Some lastb ->
  byte.unsigned lastb = 0 \/ byte.unsigned lastb > BlockSize ->
  PKCS7UnPadding src = Done (Error invalid_padding).
Proof.
  intros Hl Hp. unfold PKCS7UnPadding. rewrite Hl.
  destruct (Z.gtb_spec (byte.unsigned lastb) BlockSize); [reflexivity|].
  destruct (Z.eqb_spec (byte.unsigned lastb) 0); [reflexivity|]. lia.
Qed.

(** With a padding count [p] in [1..16] that fits in the buffer, the result
    is decided by the last [p] bytes. *)
Lemma PKCS7UnPadding_count_fits (src : list byte) (lastb : byte) :
  index src (len src - 1) = Some lastb ->
  0 < byte.unsigned lastb <= BlockSize ->
  byte.unsigned lastb <= len src ->
  PKCS7UnPadding src =
    if forallb (fun b => byte.unsigned b =? byte.unsigned lastb)
               (skipn (Z.to_nat (len src - byte.unsigned lastb)) src)
    then Done (Ok (firstn (Z.to_nat (len src - byte.unsigned lastb)) src))
    else Done (Error invalid_padding).
Proof.
  intros Hl Hp Hfit. unfold PKCS7UnPadding. rewrite Hl.
  set (p := byte.unsigned lastb) in *.
  destruct (Z.gtb_spec p BlockSize); [lia|].
  destruct (Z.eqb_spec p 0); [lia|]. simpl.
  unfold slice_from, slice_to.
  destruct (Z.ltb_spec (len src - p) 0); [lia|].
  destruct (Z.ltb_spec (len src) (len src - p)); [lia|]. simpl.
  rewrite check_pad_spec; cycle 1.
  { lia. }
  { unfold len. rewrite length_skipn. unfold len in *. lia. }
  simpl. rewrite firstn_all2; cycle 1.
  { rewrite length_skipn. unfold len in *. lia. }
  assert (Hpred : forall b, byte_eqb b (byte.of_Z p) = (byte.unsigned b =? p)).
  { intros b. unfold byte_eqb. rewrite unsigned_of_Z_small; [reflexivity|].
    unfold BlockSize in *. lia. }
  rewrite (forallb_pointwise _ _ _ Hpred).
  destruct (forallb _ _); reflexivity.
Qed.

Lemma forallb_repeat {A : Type} (f : A -> bool) (x : A) (n : nat) :
  f x = true -> forallb f (repeat x n) = true.
Proof.
  intros Hx. induction n as [|n IH]; simpl; [reflexivity|]. now rewrite Hx, IH.
Qed.

Lemma padding_range (b : list byte) :
  0 < BlockSize - len b mod BlockSize <= BlockSize.
Proof.
  unfold BlockSize. pose proof (Z.mod_pos_bound (len b) 16). lia.
Qed.

Example PKCS7Padding_abc :
  PKCS7Padding [Byte.x61; Byte.x62; Byte.x63]
  = [Byte.x61; Byte.x62; Byte.x63] ++ repeat Byte.x0d 13.
Proof. reflexivity. Qed.

Example PKCS7UnPadding_abc :
  PKCS7UnPadding ([Byte.x61; Byte.x62; Byte.x63] ++ repeat Byte.x0d 13)
  = Done (Ok [Byte.x61; Byte.x62; Byte.x63]).
Proof. reflexivity. Qed.

Example PKCS7UnPadding_tampered :
  PKCS7UnPadding ([Byte.x61; Byte.x0c] ++ repeat Byte.x0d 12)
  = Done (Error invalid_padding).
Proof. reflexivity. Qed.

(** C6: for every byte buffer [b], unpadding the padded buffer gives [b]
    back; the padded buffer has length [len(b) + (16 - len(b) mod 16)], a
    positive multiple of the block size strictly above [len(b)]; a buffer
    whose length is already a multiple of 16 receives a full block of
    sixteen bytes of value 16. *)
Theorem PKCS7_round_trip (b : list byte) :
  PKCS7UnPadding (PKCS7Padding b) = Done (Ok b) /\
  len (PKCS7Padding b) = len b + (16 - len b mod 16) /\
  0 < len (PKCS7Padding b) /\
  len (PKCS7Padding b) mod BlockSize = 0 /\
  len b < len (PKCS7Padding b) /\
  (len b mod 16 = 0 ->
   PKCS7Padding b = b ++ repeat (byte.of_Z 16) 16).
Proof.
  pose proof (padding_range b) as Hp.
  pose proof (len_nonneg b) as Hb.
  set (p := BlockSize - len b mod BlockSize) in *.
  assert (Hlen : len (PKCS7Padding b) = len b + p).
  { unfold PKCS7Padding. fold p. rewrite len_app, len_repeat. lia. }
  assert (Hu : byte.unsigned (byte.of_Z p) = p).
  { apply unsigned_of_Z_small. unfold BlockSize in *. lia. }
  split; [|split; [|split; [|split; [|split]]]].
  - assert (Hlast : index (PKCS7Padding b) (len (PKCS7Padding b) - 1)
                    = Some (byte.of_Z p)).
    { rewrite Hlen. unfold PKCS7Padding. fold p.
      rewrite index_app_r by lia. apply index_repeat. lia. }
    pose proof (PKCS7UnPadding_count_fits _ _ Hlast) as Hfit.
    rewrite Hu in Hfit. rewrite Hfit by lia. clear Hfit.
    rewrite Hlen. replace (len b + p - p) with (len b) by lia.
    unfold PKCS7Padding. fold p.
    replace (Z.to_nat (len b)) with (List.length b) by (unfold len; lia).
    rewrite skipn_app, skipn_all, Nat.sub_diag. simpl.
    rewrite firstn_app, firstn_all, Nat.sub_diag. simpl.
    rewrite app_nil_r.
    rewrite forallb_repeat; [reflexivity|].
    rewrite Hu. apply Z.eqb_refl.
  - rewrite Hlen. reflexivity.
  - lia.
  - rewrite Hlen. unfold p, BlockSize.
    pose proof (Z.div_mod (len b) 16 ltac:(lia)) as Hdm.
    replace (len b + (16 - len b mod 16)) with ((len b / 16 + 1) * 16) by lia.
    apply Z.mod_mul. lia.
  - lia.
  - intros Hmod. unfold PKCS7Padding, BlockSize. rewrite Hmod. reflexivity.
Qed.

(** At a buffer of sixteen bytes the padding is a full block. *)
Lemma PKCS7_round_trip_witness :
  len (repeat Byte.x00 16) mod 16 = 0 /\
  PKCS7Padding (repeat Byte.x00 16)
  = repeat Byte.x00 16 ++ repeat (byte.of_Z 16) 16.
Proof.
  split; [reflexivity|].
  apply (PKCS7_round_trip (repeat Byte.x00 16)). reflexivity.
Defined.

(** C8, as stated, fails at the one-byte buffer [[2]]: its last byte is
    neither 0 nor above the block size and no byte of the buffer differs
    from 2, yet the call neither succeeds nor returns the invalid-padding
    error: [src[len(src)-unpadding:]] is out of range. *)
Lemma PKCS7UnPadding_short_buffer :
  let src := [Byte.x02] in
  let p := byte.unsigned (last src Byte.x00) in
  p <> 0 /\ ~ p > BlockSize /\
  existsb (fun b => negb (byte.unsigned b =? p))
          (skipn (Z.to_nat (len src - p)) src) = false /\
  PKCS7UnPadding src <> Done (Ok (firstn (Z.to_nat (len src - p)) src)) /\
  PKCS7UnPadding src <> Done (Error invalid_padding) /\
  PKCS7UnPadding src = Panic SliceBoundsOutOfRange.
Proof.
  cbv zeta. repeat split; discriminate.
Qed.

(** C8 (amended): for every non-empty buffer [src] whose last byte [p] is
    0, above the block size, or at most [len(src)], [PKCS7UnPadding] returns
    the invalid-padding error exactly when [p] is 0, or above 16, or some
    byte among the last [p] bytes differs from [p]; otherwise it returns
    [src] without its last [p] bytes. *)
Theorem PKCS7UnPadding_decides (src : list byte) :
  let p := byte.unsigned (last src Byte.x00) in
  1 <= len src ->
  p = 0 \/ p > BlockSize \/ p <= len src ->
  PKCS7UnPadding src =
    if (p =? 0) || (p >? BlockSize)
       || existsb (fun b => negb (byte.unsigned b =? p))
                  (skipn (Z.to_nat (len src - p)) src)
    then Done (Error invalid_padding)
    else Done (Ok (firstn (Z.to_nat (len src - p)) src)).
Proof.
  intros p Hne Hp.
  pose proof (index_last src Byte.x00 Hne) as Hlast. fold p in Hlast.
  pose proof (byte.unsigned_range (last src Byte.x00)) as Hr. fold p in Hr.
  destruct (Z.eqb_spec p 0) as [H0|H0]; simpl.
  { apply (PKCS7UnPadding_count_refused _ _ Hlast). now left. }
  destruct (Z.gtb_spec p BlockSize) as [Hgt|Hgt]; simpl.
  { apply (PKCS7UnPadding_count_refused _ _ Hlast). right. fold p. lia. }
  assert (Hfit : p <= len src) by (destruct Hp as [?|[?|?]]; lia).
  rewrite (PKCS7UnPadding_count_fits _ _ Hlast) by (fold p; lia).
  fold p. rewrite existsb_negb_forallb.
  destruct (forallb _ _); reflexivity.
Qed.

(** The buffer [a 2 2] loses its two padding bytes. *)
Lemma PKCS7UnPadding_decides_witness :
  1 <= len [Byte.x61; Byte.x02; Byte.x02] /\
  PKCS7UnPadding [Byte.x61; Byte.x02; Byte.x02] = Done (Ok [Byte.x61]).
Proof.
  split; [unfold len; simpl; lia|].
  apply (PKCS7UnPadding_decides [Byte.x61; Byte.x02; Byte.x02]).
  - unfold len; simpl; lia.
  - right; right. vm_compute. discriminate.
Defined.

(** C10: on the empty buffer [PKCS7UnPadding] reads [src[len(src)-1]] out
    of range and panics instead of returning the invalid-padding error;
    whenever the call returns at all, with a buffer or with an error, the
    input had at least one byte. *)
Theorem PKCS7UnPadding_needs_nonempty :
  PKCS7UnPadding [] = Panic IndexOutOfRange /\
  PKCS7UnPadding [] <> Done (Error invalid_padding) /\
  (forall src r, PKCS7UnPadding src = Done r -> 1 <= len src).
Proof.
  split; [reflexivity|]. split; [discriminate|].
  intros [|x src] r; [discriminate|].
  intros _. unfold len. simpl. lia.
Qed.

(** A one-byte buffer on which the call returns. *)
Lemma PKCS7UnPadding_needs_nonempty_witness :
  PKCS7UnPadding [Byte.x01] = Done (Ok []) /\ 1 <= len [Byte.x01].
Proof.
  split; [reflexivity|].
  apply (proj2 (proj2 PKCS7UnPadding_needs_nonempty) [Byte.x01] (Ok [])).
  reflexivity.
Defined.

End PKCS7.

(** ** AES-CBC *)

Section CBC.
Import Primitives.

Lemma byte_xor_involutive (a b : byte) : byte.xor (byte.xor a b) b = a.
Proof.
  apply byte.unsigned_inj. unfold byte.xor.
  rewrite !byte.unsigned_of_Z. unfold byte.wrap.
  pose proof (byte.unsigned_range a) as Ha.
  apply Z.bits_inj'. intros n Hn.
  destruct (Z.lt_ge_cases n 8) as [Hlt|Hge].
  - rewrite Z.mod_pow2_bits_low, Z.lxor_spec by lia.
    rewrite Z.mod_pow2_bits_low, Z.lxor_spec by lia.
    now rewrite xorb_assoc, xorb_nilpotent, xorb_false_r.
  - rewrite Z.mod_pow2_bits_high by lia.
    rewrite <- (Z.mod_small (byte.unsigned a) (2 ^ 8)) by lia.
    now rewrite Z.mod_pow2_bits_high by lia.
Qed.

Lemma length_xorBytes (a b : list byte) :
  List.length (xorBytes a b) = Nat.min (List.length a) (List.length b).
Proof.
  revert b. induction a as [|x a IH]; intros [|y b]; simpl; auto.
Qed.

Lemma xorBytes_involutive (a b : list byte) :
  (List.length a <= List.length b)%nat -> xorBytes (xorBytes a b) b = a.
Proof.
  revert b. induction a as [|x a IH]; intros [|y b]; simpl; intros Hlen;
    try reflexivity; try lia.
  rewrite byte_xor_involutive, IH by lia. reflexivity.
Qed.

Lemma bs_16 : bs = 16%nat.
Proof. reflexivity. Qed.

Context {C : BlockCipher} {L : BlockCipherLaws C}.

Lemma length_encryptBlock (key b : list byte) :
  List.length b = bs -> List.length (encryptBlock key b) = bs.
Proof.
  intros Hb. pose proof (encryptBlock_len key b) as H.
  rewrite bs_16 in *. unfold len, BlockSize in H. lia.
Qed.

Lemma length_cbcEncryptBlocks (key : list byte) (blocks : nat) :
  forall iv src,
    List.length iv = bs -> List.length src = (blocks * bs)%nat ->
    List.length (cbcEncryptBlocks key iv src blocks) = (blocks * bs)%nat.
Proof.
  induction blocks as [|blocks IH]; intros iv src Hiv Hsrc;
    cbn [cbcEncryptBlocks]; [reflexivity|].
  rewrite Nat.mul_succ_l in Hsrc.
  assert (Hc : List.length (encryptBlock key (xorBytes (firstn bs src) iv)) = bs).
  { apply length_encryptBlock. rewrite length_xorBytes, length_firstn. lia. }
  rewrite length_app, Hc, IH; [reflexivity|assumption|].
  rewrite length_skipn. lia.
Qed.

(** Decrypting the blocks [CryptBlocks] has encrypted, with the same key and
    IV, gives the plaintext back. *)
Lemma cbc_blocks_round_trip (key : list byte) (blocks : nat) :
  valid_key_len (len key) = true ->
  forall iv src,
    List.length iv = bs -> List.length src = (blocks * bs)%nat ->
    cbcDecryptBlocks key iv (cbcEncryptBlocks key iv src blocks) blocks = src.
Proof.
  intros Hkey.
  induction blocks as [|blocks IH]; intros iv src Hiv Hsrc;
    cbn [cbcEncryptBlocks cbcDecryptBlocks].
  - destruct src; [reflexivity|discriminate].
  - rewrite Nat.mul_succ_l in Hsrc.
    assert (Hx : List.length (xorBytes (firstn bs src) iv) = bs).
    { rewrite length_xorBytes, length_firstn. lia. }
    pose proof (length_encryptBlock key _ Hx) as Hc.
    set (c := encryptBlock key (xorBytes (firstn bs src) iv)) in *.
    rewrite firstn_app, skipn_app, Hc, Nat.sub_diag.
    cbn [firstn skipn].
    rewrite firstn_all2, skipn_all2 by lia.
    rewrite !app_nil_r. cbn [app].
    unfold c at 1. rewrite decrypt_encryptBlock; cycle 1.
    { assumption. }
    { unfold len. rewrite Hx. reflexivity. }
    rewrite xorBytes_involutive by (rewrite length_firstn; lia).
    rewrite IH; [apply firstn_skipn|assumption|].
    rewrite length_skipn. lia.
Qed.

Lemma blocks_of_len (p : list byte) :
  len p mod BlockSize = 0 ->
  List.length p = (Z.to_nat (len p / BlockSize) * bs)%nat.
Proof.
  intros Hmod. rewrite bs_16. unfold len, BlockSize in *.
  pose proof (Z.div_mod (Z.of_nat (List.length p)) 16 ltac:(lia)) as Hdm.
  pose proof (Z.div_pos (Z.of_nat (List.length p)) 16 ltac:(lia) ltac:(lia)).
  lia.
Qed.

(** C7: for every key of 16, 24 or 32 bytes, every plaintext whose length is
    a multiple of the block size and every IV the random source delivers,
    [CBCEncrypt] returns the IV followed by the encrypted blocks, and
    [CBCDecrypt] under the same key turns that ciphertext back into the
    plaintext. *)
Theorem CBC_round_trip (key p rand : list byte) :
  valid_key_len (len key) = true ->
  len p mod BlockSize = 0 ->
  BlockSize <= len rand ->
  let iv := firstn bs rand in
  let ciphertext :=
    iv ++ cbcEncryptBlocks key iv p (Z.to_nat (len p / BlockSize)) in
  CBCEncrypt key p rand = (Ok ciphertext, skipn bs rand) /\
  len iv = BlockSize /\
  len ciphertext = BlockSize + len p /\
  CBCDecrypt key ciphertext = Ok p.
Proof.
  intros Hkey Hmod Hrand iv ciphertext.
  pose proof (blocks_of_len p Hmod) as Hp.
  set (n := Z.to_nat (len p / BlockSize)) in *.
  assert (Hiv : List.length iv = bs).
  { unfold iv. rewrite length_firstn. rewrite bs_16.
    unfold len, BlockSize in Hrand. lia. }
  pose proof (length_cbcEncryptBlocks key n iv p Hiv Hp) as Hbody.
  assert (Hct : len ciphertext = BlockSize + len p).
  { unfold ciphertext. rewrite len_app. unfold len.
    rewrite Hiv, Hbody, Hp, bs_16. unfold BlockSize. lia. }
  split; [|split; [|split]].
  - unfold CBCEncrypt, NewCipher, ReadFull.
    rewrite Hmod, Hkey. simpl negb. cbv iota.
    destruct (Z.ltb_spec (len rand) BlockSize); [lia|].
    reflexivity.
  - unfold len. rewrite Hiv. reflexivity.
  - exact Hct.
  - unfold CBCDecrypt, NewCipher. rewrite Hkey.
    destruct (Z.ltb_spec (len ciphertext) BlockSize);
      [pose proof (len_nonneg p); lia|].
    assert (Hfst : firstn bs ciphertext = iv).
    { unfold ciphertext. rewrite firstn_app, Hiv, Nat.sub_diag.
      cbn [firstn]. rewrite firstn_all2 by lia. apply app_nil_r. }
    assert (Hsnd : skipn bs ciphertext = cbcEncryptBlocks key iv p n).
    { unfold ciphertext. rewrite skipn_app, Hiv, Nat.sub_diag.
      cbn [skipn]. rewrite skipn_all2 by lia. reflexivity. }
    rewrite Hfst, Hsnd.
    assert (Hlb : len (cbcEncryptBlocks key iv p n) = len p).
    { unfold len. rewrite Hbody, Hp. reflexivity. }
    rewrite Hlb, Hmod. simpl negb. cbv iota. fold n.
    f_equal. apply cbc_blocks_round_trip; assumption.
Qed.

End CBC.

Lemma xorCipher_laws : Primitives.BlockCipherLaws Stub.xorCipher.
Proof.
  split.
  - intros key b Hb. simpl. unfold len in *. now rewrite length_map.
  - intros key b _ _. simpl. rewrite map_map.
    rewrite <- (map_id b) at 2. apply map_ext.
    intros x. apply byte_xor_involutive.
Qed.

(** One block of plaintext under a 16-byte key, run through the stand-in
    cipher. *)
Lemma CBC_round_trip_witness :
  let key := repeat Byte.x2a 16 in
  let p := repeat Byte.x61 16 in
  let rand := repeat Byte.x07 16 in
  Primitives.valid_key_len (len key) = true /\
  len p mod Primitives.BlockSize = 0 /\
  Primitives.BlockSize <= len rand /\
  exists ciphertext,
    @Primitives.CBCEncrypt Stub.xorCipher key p rand = (Ok ciphertext, []) /\
    @Primitives.CBCDecrypt Stub.xorCipher key ciphertext = Ok p.
Proof.
  intros key p rand.
  assert (Hkey : Primitives.valid_key_len (len key) = true) by reflexivity.
  assert (Hp : len p mod Primitives.BlockSize = 0) by reflexivity.
  assert (Hrand : Primitives.BlockSize <= len rand) by (vm_compute; discriminate).
  split; [exact Hkey|]. split; [exact Hp|]. split; [exact Hrand|].
  destruct (@CBC_round_trip Stub.xorCipher xorCipher_laws key p rand Hkey Hp Hrand)
    as (Henc & _ & _ & Hdec).
  eexists. split; [exact Henc|exact Hdec].
Defined.

(** ** HMAC truncation *)

Section HMACTruncation.
Import Primitives.
Context {M : MAC}.

Lemma reslice_to_in_range (s : slice) (n : Z) :
  0 <= n <= slice_cap s ->
  reslice_to s n = Some (mkSlice (firstn (Z.to_nat n) (elems s ++ spare s))
                                 (skipn (Z.to_nat n) (elems s ++ spare s))).
Proof.
  intros Hn. unfold reslice_to.
  destruct (Z.ltb_spec n 0); [lia|].
  destruct (Z.ltb_spec (slice_cap s) n); [lia|]. reflexivity.
Qed.

Lemma reslice_to_out_of_range (s : slice) (n : Z) :
  n < 0 \/ slice_cap s < n -> reslice_to s n = None.
Proof.
  intros Hn. unfold reslice_to.
  destruct (Z.ltb_spec n 0); [reflexivity|].
  destruct (Z.ltb_spec (slice_cap s) n); [reflexivity|]. lia.
Qed.

(** C9 (amended): for every key, message and [n] with [0 <= n <=] the length
    of the full tag, [HMACTruncated] returns a tag of length exactly [n]
    that is a prefix of [HMAC(key, x)], the empty tag at [n = 0].  The
    function has no error result: for [n < 0] or [n] above the capacity of
    the tag's buffer it panics on the slice bounds, and for [n] between the
    length and the capacity it returns [n] bytes that start with the full
    tag. *)
Theorem HMACTruncated_prefix (key x : list byte) (n : Z) :
  (0 <= n <= slice_len (HMAC key x) ->
   exists t, HMACTruncated key x n = Done t /\
             slice_len t = n /\
             elems t = firstn (Z.to_nat n) (elems (HMAC key x))) /\
  (n < 0 \/ slice_cap (HMAC key x) < n ->
   HMACTruncated key x n = Panic SliceBoundsOutOfRange) /\
  (slice_len (HMAC key x) < n <= slice_cap (HMAC key x) ->
   exists t, HMACTruncated key x n = Done t /\
             slice_len t = n /\
             firstn (List.length (elems (HMAC key x))) (elems t)
             = elems (HMAC key x)).
Proof.
  unfold HMAC, HMACTruncated.
  set (s := macSum key x).
  pose proof (len_nonneg (elems s)) as He.
  pose proof (len_nonneg (spare s)) as Hs.
  split; [|split].
  - intros Hn. unfold slice_len in Hn.
    rewrite reslice_to_in_range by (unfold slice_cap; lia).
    eexists. split; [reflexivity|]. simpl. split.
    + unfold slice_len, len in *. simpl.
      rewrite length_firstn, length_app. lia.
    + rewrite firstn_app.
      replace (Z.to_nat n - List.length (elems s))%nat with O
        by (unfold len in Hn; lia).
      cbn [firstn]. apply app_nil_r.
  - intros Hn. now rewrite reslice_to_out_of_range.
  - intros Hn. unfold slice_len in Hn.
    rewrite reslice_to_in_range by lia.
    eexists. split; [reflexivity|]. simpl. split.
    + unfold slice_len, slice_cap, len in *. simpl.
      rewrite length_firstn, length_app. lia.
    + rewrite firstn_firstn.
      replace (Nat.min (List.length (elems s)) (Z.to_nat n))
        with (List.length (elems s)) by (unfold len in Hn; lia).
      rewrite firstn_app, firstn_all, Nat.sub_diag. cbn [firstn].
      apply app_nil_r.
Qed.

End HMACTruncation.

(** C9, as stated, fails at [n = 0] for a 32-byte tag: 0 lies outside
    [0 < n <= 32], and the call returns the empty slice instead of
    failing. *)
Lemma HMACTruncated_zero_returns :
  slice_len (@Primitives.HMAC Stub.paddedMAC [] []) = 32 /\
  ~ 0 < 0 /\
  @Primitives.HMACTruncated Stub.paddedMAC [] [] 0
  = Done (mkSlice [] (repeat Byte.x00 32)).
Proof. repeat split. lia. Qed.

(** Sixteen bytes of a 32-byte tag. *)
Lemma HMACTruncated_prefix_witness :
  0 <= 16 <= slice_len (@Primitives.HMAC Stub.paddedMAC [Byte.x6b] [Byte.x6d]) /\
  exists t,
    @Primitives.HMACTruncated Stub.paddedMAC [Byte.x6b] [Byte.x6d] 16 = Done t /\
    slice_len t = 16 /\
    elems t = firstn 16 (elems (@Primitives.HMAC Stub.paddedMAC [Byte.x6b] [Byte.x6d])).
Proof.
  assert (Hn : 0 <= 16 <= slice_len (@Primitives.HMAC Stub.paddedMAC [Byte.x6b] [Byte.x6d]))
    by (vm_compute; split; discriminate).
  split; [exact Hn|].
  exact (proj1 (@HMACTruncated_prefix Stub.paddedMAC [Byte.x6b] [Byte.x6d] 16) Hn).
Defined.

(** ** The node life cycle *)

Section LifeCycle.
Import Crypto.
Context {W : Type} {N : NodeInternals W}.

(** [register], path by path. *)
Lemma register_paths (t : NodeType) (name : string) (pwd : list byte)
  (enrollID enrollPWD : string) (regFunc : option (registerFunc W))
  (node : nodeImpl W) :
  register t name pwd enrollID enrollPWD regFunc node =
    match initConfiguration name (fields node) with
    | (Error e, w) =>
        (Error e,
         mkNode (isRegistered node) (isInitialized node) t w
                (log node ++ [LogErrorf "Failed initiliazing configuration [%s]: [%s]."
                                        [AString enrollID; AError e]]))
    | (Ok _, w1) =>
        match initKeyStore pwd w1 with
        | (Error e, w) =>
            (Error e,
             mkNode (isRegistered node) (isInitialized node) t w
                    (log node ++ [keystore_log e]))
        | (Ok _, w2) =>
            if isRegistered node
            then (Error ErrAlreadyRegistered,
                  mkNode true (isInitialized node) t w2 (log node))
            else if isInitialized node
            then (Error ErrAlreadyInitialized, mkNode false true t w2 (log node))
            else
              match registerCryptoEngine enrollID enrollPWD w2 with
              | (Error e, w) =>
                  (Error e,
                   mkNode false false t w
                          (log node ++ [LogErrorf "Failed registering node crypto engine [%s]."
                                                  [AError e]]))
              | (Ok _, w3) =>
                  match run_hook (option_map (fun f => f t name pwd enrollID enrollPWD)
                                             regFunc) w3 with
                  | (Error e, w) => (Error e, mkNode false false t w (log node))
                  | (Ok _, w4) =>
                      (Ok tt,
                       mkNode true false t w4
                              (log node ++ [LogDebugf "Registration of node [%s] with name [%s] completed"
                                                      [ANodeType t; AString name]]))
                  end
              end
        end
    end.
Proof.
  unfold register, nodeRegister, and_then, call, if_err, on_fields, logger,
    set_eType, IsRegistered, IsInitialized, setRegistered, stmt, modify,
    return_err, go_on, ret, run_hook.
  destruct node as [reg ini t0 w l]. cbn.
  destruct (initConfiguration name w) as [[[]|e] w1]; cbn; [|reflexivity].
  destruct (initKeyStore pwd w1) as [[[]|e] w2]; cbn; [|destruct e; reflexivity].
  destruct reg; cbn; [reflexivity|].
  destruct ini; cbn; [reflexivity|].
  destruct (registerCryptoEngine enrollID enrollPWD w2) as [[[]|e] w3]; cbn;
    [|reflexivity].
  destruct regFunc as [f|]; cbn.
  - destruct (f t name pwd enrollID enrollPWD w3) as [[[]|e] w4]; reflexivity.
  - reflexivity.
Qed.

(** [init], path by path. *)
Lemma init_paths (t : NodeType) (name : string) (pwd : list byte)
  (initFunc : option (initalizationFunc W)) (node : nodeImpl W) :
  init t name pwd initFunc node =
    match initConfiguration name (fields node) with
    | (Error e, w) =>
        (Error e,
         mkNode (isRegistered node) (isInitialized node) t w
                (log node ++ [LogErrorf "Failed initiliazing configuration: [%s]"
                                        [AError e]]))
    | (Ok _, w1) =>
        match initKeyStore pwd w1 with
        | (Error e, w) =>
            (Error e,
             mkNode (isRegistered node) (isInitialized node) t w
                    (log node ++ [keystore_log e]))
        | (Ok _, w2) =>
            if isInitialized node
            then (Error ErrAlreadyInitialized,
                  mkNode (isRegistered node) true t w2 (log node))
            else
              match initCryptoEngine w2 with
              | (Error e, w) =>
                  (Error e,
                   mkNode (isRegistered node) false t w
                          (log node ++ [LogErrorf "Failed initiliazing crypto engine [%s]. %s"
                                                  [AError e; AError ErrRegistrationRequired]]))
              | (Ok _, w3) =>
                  match run_hook (option_map (fun f => f t name pwd) initFunc) w3 with
                  | (Error e, w) =>
                      (Error e, mkNode (isRegistered node) false t w (log node))
                  | (Ok _, w4) =>
                      (Ok tt, mkNode (isRegistered node) true t w4 (log node))
                  end
              end
        end
    end.
Proof.
  unfold init, nodeInit, and_then, call, if_err, on_fields, logger,
    set_eType, IsInitialized, setInitialized, stmt, modify,
    return_err, go_on, ret, run_hook.
  destruct node as [reg ini t0 w l]. cbn.
  destruct (initConfiguration name w) as [[[]|e] w1]; cbn; [|reflexivity].
  destruct (initKeyStore pwd w1) as [[[]|e] w2]; cbn; [|destruct e; reflexivity].
  destruct ini; cbn; [reflexivity|].
  destruct (initCryptoEngine w2) as [[[]|e] w3]; cbn; [|reflexivity].
  destruct initFunc as [f|]; cbn.
  - destruct (f t name pwd w3) as [[[]|e] w4]; reflexivity.
  - reflexivity.
Qed.

(** C2: on a node that is not registered, [register] sets the registered
    flag when the configuration step, the key-store initialization, the
    enrollment of the crypto engine and the hook have all returned [nil],
    one after the other, and returns [nil]; it ends with the flag set only
    in that case.  When one of these steps fails the call returns the error
    of that step, and whenever the call returns an error the flag is still
    false. *)
Theorem register_flag_only_on_full_success (t : NodeType) (name : string)
  (pwd : list byte) (enrollID enrollPWD : string)
  (regFunc : option (registerFunc W)) (node : nodeImpl W) :
  isRegistered node = false ->
  let r := fst (register t name pwd enrollID enrollPWD regFunc node) in
  let node' := snd (register t name pwd enrollID enrollPWD regFunc node) in
  let hook := run_hook (option_map (fun f => f t name pwd enrollID enrollPWD) regFunc) in
  (forall e, r = Error e -> isRegistered node' = false) /\
  (isRegistered node' = true ->
   r = Ok tt /\
   exists w1 w2 w3,
     initConfiguration name (fields node) = (Ok tt, w1) /\
     initKeyStore pwd w1 = (Ok tt, w2) /\
     registerCryptoEngine enrollID enrollPWD w2 = (Ok tt, w3) /\
     hook w3 = (Ok tt, fields node')) /\
  (forall e w,
     initConfiguration name (fields node) = (Error e, w) -> r = Error e) /\
  (forall w1 e w,
     initConfiguration name (fields node) = (Ok tt, w1) ->
     initKeyStore pwd w1 = (Error e, w) -> r = Error e) /\
  (forall w1 w2 e w,
     initConfiguration name (fields node) = (Ok tt, w1) ->
     initKeyStore pwd w1 = (Ok tt, w2) ->
     isInitialized node = false ->
     registerCryptoEngine enrollID enrollPWD w2 = (Error e, w) -> r = Error e) /\
  (forall w1 w2 w3 e w,
     initConfiguration name (fields node) = (Ok tt, w1) ->
     initKeyStore pwd w1 = (Ok tt, w2) ->
     isInitialized node = false ->
     registerCryptoEngine enrollID enrollPWD w2 = (Ok tt, w3) ->
     hook w3 = (Error e, w) -> r = Error e) /\
  (forall w1 w2 w3 w4,
     initConfiguration name (fields node) = (Ok tt, w1) ->
     initKeyStore pwd w1 = (Ok tt, w2) ->
     isInitialized node = false ->
     registerCryptoEngine enrollID enrollPWD w2 = (Ok tt, w3) ->
     hook w3 = (Ok tt, w4) ->
     r = Ok tt /\ isRegistered node' = true /\ fields node' = w4) /\
  (r = Ok tt -> isRegistered node' = true).
Proof.
  intros Hreg r node' hook. subst r node' hook.
  rewrite register_paths, Hreg.
  split; [|split; [|split; [|split; [|split; [|split; [|split]]]]]].
  - intros e.
    destruct (initConfiguration name (fields node)) as [[[]|e1] w1];
      [|reflexivity].
    destruct (initKeyStore pwd w1) as [[[]|e2] w2]; [|reflexivity].
    destruct (isInitialized node); [reflexivity|].
    destruct (registerCryptoEngine enrollID enrollPWD w2) as [[[]|e3] w3];
      [|reflexivity].
    destruct (run_hook _ w3) as [[[]|e4] w4]; [discriminate|reflexivity].
  - destruct (initConfiguration name (fields node)) as [[[]|e1] w1];
      [|discriminate].
    destruct (initKeyStore pwd w1) as [[[]|e2] w2] eqn:Hk; [|discriminate].
    destruct (isInitialized node); [discriminate|].
    destruct (registerCryptoEngine enrollID enrollPWD w2) as [[[]|e3] w3] eqn:He;
      [|discriminate].
    destruct (run_hook _ w3) as [[[]|e4] w4] eqn:Hh; [|discriminate].
    intros _. split; [reflexivity|]. exists w1, w2, w3. cbn.
    repeat split; assumption.
  - intros e w Hc. rewrite Hc. reflexivity.
  - intros w1 e w Hc Hk. rewrite Hc, Hk. reflexivity.
  - intros w1 w2 e w Hc Hk Hi He. rewrite Hc, Hk, Hi, He. reflexivity.
  - intros w1 w2 w3 e w Hc Hk Hi He Hh. rewrite Hc, Hk, Hi, He, Hh. reflexivity.
  - intros w1 w2 w3 w4 Hc Hk Hi He Hh. rewrite Hc, Hk, Hi, He, Hh.
    repeat split.
  - destruct (initConfiguration name (fields node)) as [[[]|e1] w1];
      [|discriminate].
    destruct (initKeyStore pwd w1) as [[[]|e2] w2]; [|discriminate].
    destruct (isInitialized node); [discriminate|].
    destruct (registerCryptoEngine enrollID enrollPWD w2) as [[[]|e3] w3];
      [|discriminate].
    destruct (run_hook _ w3) as [[[]|e4] w4]; [reflexivity|discriminate].
Qed.

(** C3 (amended): when the key-store step of [register] reports
    [ErrKeyStoreAlreadyInitialized], the call returns that very error to
    its caller and stops there: the flags are as before, neither the
    enrollment nor the hook has run, and the node is as the key-store step
    left it but for the line "Keystore already initialized." in the log. *)
Theorem register_keystore_already_initialized (t : NodeType) (name : string)
  (pwd : list byte) (enrollID enrollPWD : string)
  (regFunc : option (registerFunc W)) (node : nodeImpl W) (w1 w2 : W) :
  initConfiguration name (fields node) = (Ok tt, w1) ->
  initKeyStore pwd w1 = (Error ErrKeyStoreAlreadyInitialized, w2) ->
  register t name pwd enrollID enrollPWD regFunc node =
    (Error ErrKeyStoreAlreadyInitialized,
     mkNode (isRegistered node) (isInitialized node) t w2
            (log node ++ [LogError "Keystore already initialized."])).
Proof.
  intros Hc Hk. rewrite register_paths, Hc, Hk. reflexivity.
Qed.

(** C4 (amended): on a registered node, a [register] call whose
    configuration and key-store steps succeed returns
    [ErrAlreadyRegistered]; it runs neither the enrollment nor the hook, so
    that the node is as those two steps left it, with its flags and its log
    as before.  When one of the two steps fails the call returns the error
    of that step instead.  In every case the registered flag stays set and
    the entity type of the node is overwritten with the one the call was
    given. *)
Theorem register_again (t : NodeType) (name : string)
  (pwd : list byte) (enrollID enrollPWD : string)
  (regFunc : option (registerFunc W)) (node : nodeImpl W) :
  isRegistered node = true ->
  let run := register t name pwd enrollID enrollPWD regFunc node in
  (forall w1 w2,
     initConfiguration name (fields node) = (Ok tt, w1) ->
     initKeyStore pwd w1 = (Ok tt, w2) ->
     run = (Error ErrAlreadyRegistered,
            mkNode true (isInitialized node) t w2 (log node))) /\
  (forall e w,
     initConfiguration name (fields node) = (Error e, w) -> fst run = Error e) /\
  (forall w1 e w,
     initConfiguration name (fields node) = (Ok tt, w1) ->
     initKeyStore pwd w1 = (Error e, w) -> fst run = Error e) /\
  isRegistered (snd run) = true /\
  eType (snd run) = t.
Proof.
  intros Hreg run. subst run. rewrite register_paths, Hreg.
  repeat split.
  - intros w1 w2 Hc Hk. rewrite Hc, Hk. reflexivity.
  - intros e w Hc. rewrite Hc. reflexivity.
  - intros w1 e w Hc Hk. rewrite Hc, Hk. reflexivity.
  - destruct (initConfiguration name (fields node)) as [[[]|e1] w1];
      [|reflexivity].
    destruct (initKeyStore pwd w1) as [[[]|e2] w2]; reflexivity.
  - destruct (initConfiguration name (fields node)) as [[[]|e1] w1];
      [|reflexivity].
    destruct (initKeyStore pwd w1) as [[[]|e2] w2]; reflexivity.
Qed.

(** C5 (amended): on an initialized node, an [init] call whose
    configuration and key-store steps succeed returns
    [ErrAlreadyInitialized] without building a crypto engine or running the
    hook; when one of the two steps fails it returns the error of that step
    instead.  On a node that is not initialized, the flag is set at the end
    of [init] only if the configuration step, the key-store step, the
    crypto engine and the hook have all returned [nil]. *)
Theorem init_again_and_flag (t : NodeType) (name : string) (pwd : list byte)
  (initFunc : option (initalizationFunc W)) (node : nodeImpl W) :
  let run := init t name pwd initFunc node in
  let hook := run_hook (option_map (fun f => f t name pwd) initFunc) in
  (isInitialized node = true ->
   (forall w1 w2,
      initConfiguration name (fields node) = (Ok tt, w1) ->
      initKeyStore pwd w1 = (Ok tt, w2) ->
      run = (Error ErrAlreadyInitialized,
             mkNode (isRegistered node) true t w2 (log node))) /\
   (forall e w,
      initConfiguration name (fields node) = (Error e, w) -> fst run = Error e) /\
   (forall w1 e w,
      initConfiguration name (fields node) = (Ok tt, w1) ->
      initKeyStore pwd w1 = (Error e, w) -> fst run = Error e)) /\
  (isInitialized node = false ->
   isInitialized (snd run) = true ->
   fst run = Ok tt /\
   exists w1 w2 w3,
     initConfiguration name (fields node) = (Ok tt, w1) /\
     initKeyStore pwd w1 = (Ok tt, w2) /\
     initCryptoEngine w2 = (Ok tt, w3) /\
     hook w3 = (Ok tt, fields (snd run))).
Proof.
  intros run hook. subst run hook. rewrite init_paths. split.
  - intros Hini. rewrite Hini. repeat split.
    + intros w1 w2 Hc Hk. rewrite Hc, Hk. reflexivity.
    + intros e w Hc. rewrite Hc. reflexivity.
    + intros w1 e w Hc Hk. rewrite Hc, Hk. reflexivity.
  - intros Hini. rewrite Hini.
    destruct (initConfiguration name (fields node)) as [[[]|e1] w1];
      [|discriminate].
    destruct (initKeyStore pwd w1) as [[[]|e2] w2] eqn:Hk; [|discriminate].
    destruct (initCryptoEngine w2) as [[[]|e3] w3] eqn:He; [|discriminate].
    destruct (run_hook _ w3) as [[[]|e4] w4] eqn:Hh; [|discriminate].
    intros _. split; [reflexivity|]. exists w1, w2, w3. cbn.
    repeat split; assumption.
Qed.

End LifeCycle.

(** *** The life cycle on the stand-in store *)

Section LifeCycleOnStore.
Import Crypto Stub.

(** The end-to-end scenario of the specification: a client registers as
    [alice] with the secret [secret1]. *)
Example register_alice :
  @register _ (storeNode false) NodeClient "alice" [] "alice" "secret1" None freshNode
  = (Ok tt,
     mkNode true false NodeClient
            (mkStore (Some "alice"%string) true
                     (Some ("alice"%string, "secret1"%string)) 0)
            [LogDebugf "Registration of node [%s] with name [%s] completed"
                       [ANodeType NodeClient; AString "alice"]]).
Proof. reflexivity. Qed.

(** Initialization without enrollment material fails and builds no
    engine. *)
Example init_before_register :
  @init _ (storeNode false) NodePeer "vp0" [] None freshNode
  = (Error ErrRegistrationRequired,
     mkNode false false NodePeer (mkStore (Some "vp0"%string) true None 0)
            [LogErrorf "Failed initiliazing crypto engine [%s]. %s"
                       [AError ErrRegistrationRequired;
                        AError ErrRegistrationRequired]]).
Proof. reflexivity. Qed.

(** On the fresh node a registration whose four steps succeed raises the
    flag, and one whose hook fails leaves it down. *)
Lemma register_flag_only_on_full_success_witness :
  isRegistered freshNode = false /\
  isRegistered
    (snd (@register _ (storeNode false) NodeClient "alice" [] "alice" "secret1"
                    None freshNode)) = true /\
  isRegistered
    (snd (@register _ (storeNode false) NodeClient "alice" [] "alice" "secret1"
                    (Some failingHook) freshNode)) = false.
Proof.
  split; [reflexivity|]. split.
  - apply (proj2 (proj2 (proj2 (proj2 (proj2 (proj2 (proj2
             (@register_flag_only_on_full_success _ (storeNode false)
                NodeClient "alice" [] "alice" "secret1" None
                freshNode eq_refl)))))))).
    reflexivity.
  - apply (proj1 (@register_flag_only_on_full_success _ (storeNode false)
                    NodeClient "alice" [] "alice" "secret1" (Some failingHook)
                    freshNode eq_refl)
                 (errorString "hook failed")).
    reflexivity.
Defined.

(** C3, as stated, fails on that node: the call returns
    [ErrKeyStoreAlreadyInitialized] to its caller and does not go on to the
    enrollment. *)
Lemma register_stops_at_initialized_keystore :
  let run := @register _ (storeNode false) NodeClient "alice" [] "alice" "secret1"
                       None halfRegistered in
  ksInitialized (fields halfRegistered) = true /\
  fst run = Error ErrKeyStoreAlreadyInitialized /\
  enrollment (fields (snd run)) = None /\
  isRegistered (snd run) = false.
Proof. repeat split. Qed.

(** On the half-registered node the call stops at the key store. *)
Lemma register_keystore_already_initialized_witness :
  @register _ (storeNode false) NodeClient "alice" [] "alice" "secret1"
            None halfRegistered
  = (Error ErrKeyStoreAlreadyInitialized,
     mkNode false false NodeClient (mkStore (Some "alice"%string) true None 0)
            [LogError "Keystore already initialized."]).
Proof.
  apply (@register_keystore_already_initialized _ (storeNode false)
           NodeClient "alice" [] "alice" "secret1" None halfRegistered
           (mkStore (Some "alice"%string) true None 0)
           (mkStore (Some "alice"%string) true None 0));
    reflexivity.
Defined.

(** C4, as stated, fails on the store of section 4.3: a second [register]
    on the node the first one has registered returns
    [ErrKeyStoreAlreadyInitialized], not [ErrAlreadyRegistered].  It fails
    as well with a key store that opens again, when the second call names a
    node without configuration: the call returns the configuration
    error. *)
Lemma register_twice_keystore_error :
  let first := @register _ (storeNode false) NodeClient "alice" [] "alice" "secret1"
                         None freshNode in
  let second := @register _ (storeNode false) NodeClient "alice" [] "alice" "secret1"
                          None (snd first) in
  let first' := @register _ (storeNode true) NodeClient "alice" [] "alice" "secret1"
                          None freshNode in
  let second' := @register _ (storeNode true) NodeClient "" [] "alice" "secret1"
                           None (snd first') in
  fst first = Ok tt /\
  isRegistered (snd first) = true /\
  fst second = Error ErrKeyStoreAlreadyInitialized /\
  fst second <> Error ErrAlreadyRegistered /\
  fst first' = Ok tt /\
  isRegistered (snd first') = true /\
  fst second' = Error (errorString "no configuration") /\
  fst second' <> Error ErrAlreadyRegistered.
Proof. repeat split; discriminate. Qed.

(** With a key store that opens again, a second call on the node
    registered as a client, this time as a validator, returns
    [ErrAlreadyRegistered]: the store, the flags and the log are as they
    were, and the node is now typed as a validator. *)
Lemma register_again_witness :
  let registered :=
    snd (@register _ (storeNode true) NodeClient "alice" [] "alice" "secret1"
                   None freshNode) in
  isRegistered registered = true /\
  eType registered = NodeClient /\
  @register _ (storeNode true) NodeValidator "alice" [] "alice" "secret1" None
            registered
  = (Error ErrAlreadyRegistered,
     mkNode true false NodeValidator (fields registered) (log registered)).
Proof.
  intros registered. split; [reflexivity|]. split; [reflexivity|].
  apply (proj1 (@register_again _ (storeNode true) NodeValidator "alice" []
                  "alice" "secret1" None registered eq_refl)
               (fields registered) (fields registered));
    reflexivity.
Defined.

(** C5, as stated, fails on the store of section 4.3: a second [init] on
    the node the first one has initialized returns
    [ErrKeyStoreAlreadyInitialized], not [ErrAlreadyInitialized].  It fails
    as well with a key store that opens again, when the second call names a
    node without configuration: the call returns the configuration
    error. *)
Lemma init_twice_keystore_error :
  let first := @init _ (storeNode false) NodePeer "vp0" [] None enrolled in
  let second := @init _ (storeNode false) NodePeer "vp0" [] None (snd first) in
  let first' := @init _ (storeNode true) NodePeer "vp0" [] None enrolled in
  let second' := @init _ (storeNode true) NodePeer "" [] None (snd first') in
  fst first = Ok tt /\
  isInitialized (snd first) = true /\
  fst second = Error ErrKeyStoreAlreadyInitialized /\
  fst second <> Error ErrAlreadyInitialized /\
  fst first' = Ok tt /\
  isInitialized (snd first') = true /\
  fst second' = Error (errorString "no configuration") /\
  fst second' <> Error ErrAlreadyInitialized.
Proof. repeat split; discriminate. Qed.

(** With a key store that opens again, the first [init] sets the flag after
    its four steps and builds one engine; the second returns
    [ErrAlreadyInitialized] and builds none. *)
Lemma init_again_and_flag_witness :
  let first := @init _ (storeNode true) NodePeer "vp0" [] None enrolled in
  isInitialized enrolled = false /\
  isInitialized (snd first) = true /\
  fst first = Ok tt /\
  engines (fields (snd first)) = 1%nat /\
  @init _ (storeNode true) NodePeer "vp0" [] None (snd first)
  = (Error ErrAlreadyInitialized, snd first).
Proof.
  intros first.
  split; [reflexivity|]. split; [reflexivity|]. split; [|split; [reflexivity|]].
  - apply (proj2 (@init_again_and_flag _ (storeNode true) NodePeer "vp0" []
                    None enrolled));
      reflexivity.
  - apply (proj1 (proj1 (@init_again_and_flag _ (storeNode true) NodePeer "vp0" []
                           None (snd first)) eq_refl)
                 (fields (snd first)) (fields (snd first)));
      reflexivity.
Defined.

End LifeCycleOnStore.

(** ** getSecHelper *)

Section SecHelper.
Import Node.
Context {Env Peer : Type} {K : Collaborators Env Peer}.

(** C1 (amended): a call of [getSecHelper] leaves the [Once] marked, and
    every call made once it is marked returns [(nil, nil)] and changes
    nothing: it makes no call into package [crypto], so no node is
    registered or initialized a second time.  The outcome of the first
    attempt, success or failure, is returned by the first call only. *)
Theorem getSecHelper_once (p : process Env) :
  once_done (snd (getSecHelper p)) = true /\
  (once_done p = true -> getSecHelper p = ((None, None), p)) /\
  getSecHelper (snd (getSecHelper p)) = ((None, None), snd (getSecHelper p)).
Proof.
  assert (Hdone : forall q : process Env,
             once_done q = true -> getSecHelper q = ((None, None), q)).
  { intros q Hq. unfold getSecHelper, once_Do. now rewrite Hq. }
  assert (Hmark : once_done (snd (getSecHelper p)) = true).
  { unfold getSecHelper, once_Do.
    destruct (once_done p) eqn:Hp; [exact Hp|].
    destruct (closure (None, None) p) as [l p']. reflexivity. }
  split; [exact Hmark|]. split; [apply Hdone|]. now apply Hdone.
Qed.

End SecHelper.

Section SecHelperOnStub.
Import Node Stub.

(** A validator whose enrollment the certificate authority refuses, and one
    it accepts. *)
Example getSecHelper_first_call_refused :
  @getSecHelper _ _ peerCollaborators
                (freshProcess (mkPeerEnv true true "vp0" "secret" false))
  = ((None, Some (errorString "enrollment refused")),
     mkProcess true true true [CallRegisterValidator "vp0" "vp0" "secret"]
               (mkPeerEnv true true "vp0" "secret" false)).
Proof. reflexivity. Qed.

Example getSecHelper_first_call_accepted :
  @getSecHelper _ _ peerCollaborators
                (freshProcess (mkPeerEnv true false "nvp0" "secret" true))
  = ((Some "nvp0"%string, None),
     mkProcess true true false
               [CallRegisterPeer "nvp0" "nvp0" "secret"; CallInitPeer "nvp0"]
               (mkPeerEnv true false "nvp0" "secret" true)).
Proof. reflexivity. Qed.

(** C1, as stated, fails after a refused and after an accepted enrollment:
    the second call returns [(nil, nil)], which is not what the first
    attempt produced. *)
Lemma getSecHelper_second_call_forgets :
  let refused := freshProcess (mkPeerEnv true true "vp0" "secret" false) in
  let accepted := freshProcess (mkPeerEnv true false "nvp0" "secret" true) in
  let call := @getSecHelper _ _ peerCollaborators in
  fst (call refused) = (None, Some (errorString "enrollment refused")) /\
  fst (call (snd (call refused))) = (None, None) /\
  fst (call accepted) = (Some "nvp0"%string, None) /\
  fst (call (snd (call accepted))) = (None, None) /\
  fst (call (snd (call refused))) <> fst (call refused) /\
  fst (call (snd (call accepted))) <> fst (call accepted).
Proof. repeat split; discriminate. Qed.

(** After the refused enrollment a further call registers nothing. *)
Lemma getSecHelper_once_witness :
  let after :=
    snd (@getSecHelper _ _ peerCollaborators
           (freshProcess (mkPeerEnv true true "vp0" "secret" false))) in
  once_done after = true /\
  @getSecHelper _ _ peerCollaborators after = ((None, None), after) /\
  calls after = [CallRegisterValidator "vp0" "vp0" "secret"].
Proof.
  intros after. split; [reflexivity|]. split; [|reflexivity].
  apply (proj1 (proj2 (@getSecHelper_once _ _ peerCollaborators after))).
  reflexivity.
Defined.

End SecHelperOnStub.

(* ===================================================================== *)
(** * Further properties *)
(* ===================================================================== *)

(** ** PKCS7: the shape of accepted buffers *)

Section PKCS7Shape.
Import Primitives.

Lemma forallb_all_equal (p : Z) (l : list byte) :
  forallb (fun b => byte.unsigned b =? p) l = true ->
  l = repeat (byte.of_Z p) (List.length l).
Proof.
  induction l as [|b l IH]; simpl; [reflexivity|].
  intros Hb. apply andb_prop in Hb. destruct Hb as [Hb Hl].
  apply Z.eqb_eq in Hb. rewrite <- IH by exact Hl.
  f_equal. rewrite <- Hb. symmetry. apply byte.of_Z_unsigned.
Qed.

(** A padding count in [1..16] that exceeds the buffer makes
    [src[len(src)-unpadding:]] panic. *)
Lemma PKCS7UnPadding_count_overruns (src : list byte) (lastb : byte) :
  index src (len src - 1) = Some lastb ->
  0 < byte.unsigned lastb <= BlockSize ->
  len src < byte.unsigned lastb ->
  PKCS7UnPadding src = Panic SliceBoundsOutOfRange.
Proof.
  intros Hl Hp Hover. unfold PKCS7UnPadding. rewrite Hl.
  destruct (Z.gtb_spec (byte.unsigned lastb) BlockSize); [lia|].
  destruct (Z.eqb_spec (byte.unsigned lastb) 0); [lia|]. simpl.
  unfold slice_from.
  destruct (Z.ltb_spec (len src - byte.unsigned lastb) 0); [reflexivity|lia].
Qed.

(** Unpadding a buffer that ends in [p] bytes of value [p]. *)
Lemma PKCS7UnPadding_app_repeat (out : list byte) (p : Z) :
  0 < p <= BlockSize ->
  PKCS7UnPadding (out ++ repeat (byte.of_Z p) (Z.to_nat p)) = Done (Ok out).
Proof.
  intros Hp.
  set (src := out ++ repeat (byte.of_Z p) (Z.to_nat p)).
  pose proof (len_nonneg out) as Ho.
  assert (Hlen : len src = len out + p).
  { unfold src. rewrite len_app, len_repeat. lia. }
  assert (Hu : byte.unsigned (byte.of_Z p) = p).
  { apply unsigned_of_Z_small. unfold BlockSize in *. lia. }
  assert (Hlast : index src (len src - 1) = Some (byte.of_Z p)).
  { rewrite Hlen. unfold src. rewrite index_app_r by lia.
    apply index_repeat. lia. }
  pose proof (PKCS7UnPadding_count_fits _ _ Hlast) as Hfit.
  rewrite Hu in Hfit. rewrite Hfit by lia. clear Hfit.
  rewrite Hlen. replace (len out + p - p) with (len out) by lia.
  replace (Z.to_nat (len out)) with (List.length out) by (unfold len; lia).
  unfold src.
  rewrite skipn_app, skipn_all, Nat.sub_diag. cbn [skipn app].
  rewrite firstn_app, firstn_all, Nat.sub_diag. cbn [firstn].
  rewrite app_nil_r.
  rewrite forallb_repeat; [reflexivity|].
  rewrite Hu. apply Z.eqb_refl.
Qed.

(** A buffer [PKCS7UnPadding] accepts ends in [p] bytes of value [p]. *)
Lemma PKCS7UnPadding_Ok_shape (src out : list byte) :
  PKCS7UnPadding src = Done (Ok out) ->
  exists p, 0 < p <= BlockSize /\
            src = out ++ repeat (byte.of_Z p) (Z.to_nat p).
Proof.
  intros Hok.
  destruct (Z.lt_ge_cases (len src) 1) as [Hempty|Hne].
  { destruct src; [discriminate Hok|]. unfold len in Hempty. simpl in Hempty. lia. }
  pose proof (index_last src Byte.x00 ltac:(lia)) as Hlast.
  set (lastb := last src Byte.x00) in *.
  pose proof (byte.unsigned_range lastb) as Hr.
  destruct (Z.eq_dec (byte.unsigned lastb) 0) as [H0|H0].
  { rewrite (PKCS7UnPadding_count_refused _ _ Hlast) in Hok by (now left).
    discriminate. }
  destruct (Z_gt_dec (byte.unsigned lastb) BlockSize) as [Hgt|Hgt].
  { rewrite (PKCS7UnPadding_count_refused _ _ Hlast) in Hok by (now right).
    discriminate. }
  destruct (Z.lt_ge_cases (len src) (byte.unsigned lastb)) as [Hover|Hfit].
  { rewrite (PKCS7UnPadding_count_overruns _ _ Hlast) in Hok by lia.
    discriminate. }
  rewrite (PKCS7UnPadding_count_fits _ _ Hlast) in Hok by lia.
  destruct (forallb _ _) eqn:Hall; [|discriminate].
  injection Hok as <-.
  exists (byte.unsigned lastb). split; [lia|].
  apply forallb_all_equal in Hall.
  rewrite length_skipn in Hall.
  replace (List.length src - Z.to_nat (len src - byte.unsigned lastb))%nat
    with (Z.to_nat (byte.unsigned lastb)) in Hall by (unfold len in *; lia).
  rewrite <- Hall. symmetry. apply firstn_skipn.
Qed.

(** X1: [PKCS7UnPadding] succeeds with [out] exactly on the buffers made of
    [out] followed by [p] bytes of value [p], for some [p] from 1 to 16. *)
Theorem PKCS7UnPadding_accepts_iff (src out : list byte) :
  PKCS7UnPadding src = Done (Ok out) <->
  exists p, 0 < p <= BlockSize /\
            src = out ++ repeat (byte.of_Z p) (Z.to_nat p).
Proof.
  split.
  - apply PKCS7UnPadding_Ok_shape.
  - intros [p [Hp ->]]. now apply PKCS7UnPadding_app_repeat.
Qed.

(** X2: [PKCS7Padding] undoes a successful [PKCS7UnPadding] of a buffer made of
    whole blocks. *)
Theorem PKCS7Padding_UnPadding (src out : list byte) :
  len src mod BlockSize = 0 ->
  PKCS7UnPadding src = Done (Ok out) ->
  PKCS7Padding out = src.
Proof.
  intros Hmod Hok. apply PKCS7UnPadding_Ok_shape in Hok.
  destruct Hok as [p [Hp ->]].
  rewrite len_app, len_repeat, Z2Nat.id in Hmod by lia.
  assert (Hpad : BlockSize - len out mod BlockSize = p).
  { unfold BlockSize in *.
    pose proof (Z.div_mod (len out) 16 ltac:(lia)).
    pose proof (Z.mod_pos_bound (len out) 16 ltac:(lia)).
    pose proof (Z.div_mod (len out + p) 16 ltac:(lia)).
    lia. }
  unfold PKCS7Padding. rewrite Hpad. reflexivity.
Qed.

Lemma PKCS7Padding_UnPadding_witness :
  PKCS7Padding [Byte.x61] = [Byte.x61] ++ repeat Byte.x0f 15.
Proof.
  apply (PKCS7Padding_UnPadding ([Byte.x61] ++ repeat Byte.x0f 15) [Byte.x61]);
    reflexivity.
Defined.

(** X3: Two buffers with the same padded form are equal. *)
Theorem PKCS7Padding_injective (a b : list byte) :
  PKCS7Padding a = PKCS7Padding b -> a = b.
Proof.
  intros Hab.
  assert (Ha : PKCS7UnPadding (PKCS7Padding a) = Done (Ok a)).
  { unfold PKCS7Padding. apply PKCS7UnPadding_app_repeat, padding_range. }
  assert (Hb : PKCS7UnPadding (PKCS7Padding b) = Done (Ok b)).
  { unfold PKCS7Padding. apply PKCS7UnPadding_app_repeat, padding_range. }
  rewrite Hab in Ha. congruence.
Qed.

Lemma PKCS7Padding_injective_witness :
  [Byte.x61] = [Byte.x61].
Proof.
  apply (PKCS7Padding_injective [Byte.x61] [Byte.x61]). reflexivity.
Defined.

(** With a byte to read and a padding count that is refused or fits, the
    call returns. *)
Lemma PKCS7UnPadding_returns (src : list byte) :
  1 <= len src ->
  byte.unsigned (last src Byte.x00) = 0 \/
  byte.unsigned (last src Byte.x00) > BlockSize \/
  byte.unsigned (last src Byte.x00) <= len src ->
  exists r, PKCS7UnPadding src = Done r.
Proof.
  intros Hne Hp.
  pose proof (index_last src Byte.x00 Hne) as Hlast.
  pose proof (byte.unsigned_range (last src Byte.x00)) as Hr.
  destruct (Z.eq_dec (byte.unsigned (last src Byte.x00)) 0) as [H0|H0].
  { rewrite (PKCS7UnPadding_count_refused _ _ Hlast) by (now left). eauto. }
  destruct (Z_gt_dec (byte.unsigned (last src Byte.x00)) BlockSize) as [Hgt|Hgt].
  { rewrite (PKCS7UnPadding_count_refused _ _ Hlast) by (now right). eauto. }
  rewrite (PKCS7UnPadding_count_fits _ _ Hlast) by lia.
  destruct (forallb _ _); eauto.
Qed.

(** X4: [PKCS7UnPadding] panics, instead of returning an error, exactly on the
    empty buffer and on the buffers that are shorter than the padding count
    in [1..16] their last byte announces.  On a buffer of sixteen bytes or
    more it always returns. *)
Theorem PKCS7UnPadding_panics_iff (src : list byte) :
  ((exists e, PKCS7UnPadding src = Panic e) <->
   src = [] \/
   (0 < byte.unsigned (last src Byte.x00) <= BlockSize /\
    len src < byte.unsigned (last src Byte.x00))) /\
  (BlockSize <= len src -> exists r, PKCS7UnPadding src = Done r).
Proof.
  pose proof (byte.unsigned_range (last src Byte.x00)) as Hr.
  split; [split|].
  - intros [e He].
    destruct src as [|b src']; [now left|right].
    set (src := b :: src') in *.
    assert (Hne : 1 <= len src) by (unfold len, src; simpl; lia).
    destruct (Z_le_gt_dec (byte.unsigned (last src Byte.x00)) 0) as [H0|H0].
    { destruct (PKCS7UnPadding_returns src Hne) as [r Hd]; [lia|congruence]. }
    destruct (Z_gt_dec (byte.unsigned (last src Byte.x00)) BlockSize) as [Hgt|Hgt].
    { destruct (PKCS7UnPadding_returns src Hne) as [r Hd]; [tauto|congruence]. }
    destruct (Z_le_gt_dec (byte.unsigned (last src Byte.x00)) (len src)) as [Hfit|Hover].
    { destruct (PKCS7UnPadding_returns src Hne) as [r Hd]; [tauto|congruence]. }
    lia.
  - intros [->|[Hp Hover]]; [eexists; reflexivity|].
    exists SliceBoundsOutOfRange.
    assert (Hne : 1 <= len src).
    { destruct src; [|unfold len; simpl; lia].
      simpl in Hp. vm_compute in Hp. destruct Hp as [Hp _]. discriminate. }
    apply (PKCS7UnPadding_count_overruns src (last src Byte.x00));
      [now apply index_last|assumption..].
  - intros Hlen. apply PKCS7UnPadding_returns; unfold BlockSize in *; lia.
Qed.

Lemma PKCS7UnPadding_panics_iff_witness :
  exists e, PKCS7UnPadding (repeat Byte.x10 15) = Panic e.
Proof.
  apply (proj2 (proj1 (PKCS7UnPadding_panics_iff (repeat Byte.x10 15)))).
  right. vm_compute. intuition discriminate.
Defined.

End PKCS7Shape.

(** ** CBC: failures, and the padded variants *)

Section CBCComposed.
Import Primitives.
Context {C : BlockCipher}.

Lemma len_PKCS7Padding (b : list byte) :
  len (PKCS7Padding b) = len b + (BlockSize - len b mod BlockSize).
Proof.
  pose proof (padding_range b). unfold PKCS7Padding.
  rewrite len_app, len_repeat. lia.
Qed.

Lemma PKCS7Padding_aligned (b : list byte) :
  len (PKCS7Padding b) mod BlockSize = 0.
Proof.
  rewrite len_PKCS7Padding. unfold BlockSize.
  pose proof (Z.div_mod (len b) 16 ltac:(lia)) as Hdm.
  replace (len b + (16 - len b mod 16)) with ((len b / 16 + 1) * 16) by lia.
  apply Z.mod_mul. lia.
Qed.

Lemma valid_key_len_cases (n : Z) :
  valid_key_len n = true <-> n = 16 \/ n = 24 \/ n = 32.
Proof.
  unfold valid_key_len. rewrite !orb_true_iff, !Z.eqb_eq. tauto.
Qed.

(** [CBCEncrypt] on an aligned plaintext, with a key the cipher accepts and
    sixteen bytes to read. *)
Lemma CBCEncrypt_returns (key s rand : list byte) :
  valid_key_len (len key) = true ->
  len s mod BlockSize = 0 ->
  BlockSize <= len rand ->
  CBCEncrypt key s rand =
    (Ok (firstn bs rand
         ++ cbcEncryptBlocks key (firstn bs rand) s (Z.to_nat (len s / BlockSize))),
     skipn bs rand).
Proof.
  intros Hkey Hmod Hrand. unfold CBCEncrypt, NewCipher, ReadFull.
  rewrite Hmod, Hkey. simpl negb. cbv iota.
  destruct (Z.ltb_spec (len rand) BlockSize); [lia|]. reflexivity.
Qed.

(** [CBCDecrypt] on a ciphertext of whole blocks, the IV included. *)
Lemma CBCDecrypt_returns (key src : list byte) :
  valid_key_len (len key) = true ->
  BlockSize <= len src ->
  len src mod BlockSize = 0 ->
  CBCDecrypt key src =
    Ok (cbcDecryptBlocks key (firstn bs src) (skipn bs src)
                         (Z.to_nat (len (skipn bs src) / BlockSize))) /\
  len (skipn bs src) = len src - BlockSize /\
  len (skipn bs src) mod BlockSize = 0.
Proof.
  intros Hkey Hlen Hmod.
  assert (Hskip : len (skipn bs src) = len src - BlockSize).
  { unfold len in *. rewrite length_skipn, bs_16. unfold BlockSize in *. lia. }
  assert (Hmod' : len (skipn bs src) mod BlockSize = 0).
  { rewrite Hskip. unfold BlockSize in *.
    pose proof (Z.div_mod (len src) 16 ltac:(lia)) as Hdm.
    replace (len src - 16) with ((len src / 16 - 1) * 16) by lia.
    apply Z.mod_mul. lia. }
  split; [|split; assumption].
  unfold CBCDecrypt, NewCipher. rewrite Hkey.
  destruct (Z.ltb_spec (len src) BlockSize); [lia|].
  rewrite Hmod'. reflexivity.
Qed.

(** X5: [CBCEncrypt] returns a ciphertext exactly when the plaintext is made of
    whole blocks, the key has 16, 24 or 32 bytes and the random source
    delivers a block.  The length of the plaintext is checked before the
    key, and neither of these two failures reads a random byte. *)
Theorem CBCEncrypt_succeeds_iff (key s rand : list byte) :
  ((exists ct rand', CBCEncrypt key s rand = (Ok ct, rand')) <->
   len s mod BlockSize = 0 /\ valid_key_len (len key) = true /\
   BlockSize <= len rand) /\
  (len s mod BlockSize <> 0 ->
   CBCEncrypt key s rand =
     (Error (errorString "plaintext is not a multiple of the block size"), rand)) /\
  (len s mod BlockSize = 0 -> valid_key_len (len key) = false ->
   CBCEncrypt key s rand = (Error (KeySizeError (len key)), rand)).
Proof.
  split; [split|split].
  - intros (ct & rand' & Hrun). revert Hrun.
    unfold CBCEncrypt, NewCipher, ReadFull.
    destruct (Z.eqb_spec (len s mod BlockSize) 0) as [Hmod|Hmod];
      [|discriminate].
    destruct (valid_key_len (len key)); [|discriminate]. simpl.
    destruct (Z.ltb_spec (len rand) BlockSize); [discriminate|].
    intros _. auto.
  - intros (Hmod & Hkey & Hrand).
    rewrite CBCEncrypt_returns by assumption. eauto.
  - intros Hmod. unfold CBCEncrypt.
    destruct (Z.eqb_spec (len s mod BlockSize) 0); [contradiction|reflexivity].
  - intros Hmod Hkey. unfold CBCEncrypt, NewCipher.
    rewrite Hmod, Hkey. reflexivity.
Qed.

Lemma length_cbcDecryptBlocks {D : BlockDecryptLen C} (key : list byte) (blocks : nat) :
  forall iv src,
    List.length iv = bs -> List.length src = (blocks * bs)%nat ->
    List.length (cbcDecryptBlocks key iv src blocks) = (blocks * bs)%nat.
Proof.
  induction blocks as [|blocks IH]; intros iv src Hiv Hsrc;
    cbn [cbcDecryptBlocks]; [reflexivity|].
  rewrite Nat.mul_succ_l in Hsrc.
  assert (Hc : List.length (firstn bs src) = bs) by (rewrite length_firstn; lia).
  assert (Hd : List.length (decryptBlock key (firstn bs src)) = bs).
  { pose proof (decryptBlock_len key (firstn bs src)) as Hd.
    unfold len in Hd. rewrite Hc, bs_16 in Hd. rewrite bs_16.
    unfold BlockSize in Hd. lia. }
  rewrite length_app, length_xorBytes, Hd, IH; [lia|assumption|].
  rewrite length_skipn. lia.
Qed.

(** What a plaintext returned by [CBCDecrypt] tells about the call. *)
Lemma CBCDecrypt_Ok_inv {D : BlockDecryptLen C} (key src pt : list byte) :
  CBCDecrypt key src = Ok pt ->
  valid_key_len (len key) = true /\ BlockSize <= len src /\
  len src mod BlockSize = 0 /\ len pt = len src - BlockSize.
Proof.
  intros Hrun.
  assert (Hconds : valid_key_len (len key) = true /\ BlockSize <= len src /\
                   len src mod BlockSize = 0).
  { revert Hrun. unfold CBCDecrypt, NewCipher.
    destruct (valid_key_len (len key)); [|discriminate].
    destruct (Z.ltb_spec (len src) BlockSize); [discriminate|].
    intros Hrun. split; [reflexivity|]. split; [assumption|].
    assert (Hskip : len (skipn bs src) = len src - BlockSize).
    { unfold len in *. rewrite length_skipn, bs_16. unfold BlockSize in *. lia. }
    destruct (Z.eqb_spec (len (skipn bs src) mod BlockSize) 0) as [Hm|Hm];
      [|discriminate].
    rewrite Hskip in Hm. unfold BlockSize in *.
    pose proof (Z.div_mod (len src - 16) 16 ltac:(lia)) as Hdm.
    replace (len src) with (((len src - 16) / 16 + 1) * 16) by lia.
    apply Z.mod_mul. lia. }
  destruct Hconds as (Hkey & Hlen & Hmod). repeat split; try assumption.
  destruct (CBCDecrypt_returns key src Hkey Hlen Hmod) as (Hret & Hskip & Hmod').
  rewrite Hrun in Hret.
  assert (Hpt : pt = cbcDecryptBlocks key (firstn bs src) (skipn bs src)
                       (Z.to_nat (len (skipn bs src) / BlockSize)))
    by congruence.
  rewrite Hpt. clear Hret Hrun Hpt.
  pose proof (blocks_of_len _ Hmod') as Hn.
  set (n := Z.to_nat (len (skipn bs src) / BlockSize)) in *.
  assert (Hl : List.length (cbcDecryptBlocks key (firstn bs src) (skipn bs src) n)
               = (n * bs)%nat).
  { apply length_cbcDecryptBlocks; [|exact Hn].
    rewrite length_firstn, bs_16. unfold len, BlockSize in Hlen. lia. }
  rewrite <- Hskip. unfold len. now rewrite Hl, Hn.
Qed.

(** X6: [CBCDecrypt] returns a plaintext exactly when the key has 16, 24 or 32
    bytes and the ciphertext is made of whole blocks, one at least; the
    plaintext is one block shorter than the ciphertext.  The key is checked
    first: with a key of another length the error is the key-size error,
    whatever the ciphertext. *)
Theorem CBCDecrypt_succeeds_iff {D : BlockDecryptLen C} (key src : list byte) :
  ((exists pt, CBCDecrypt key src = Ok pt) <->
   valid_key_len (len key) = true /\ BlockSize <= len src /\
   len src mod BlockSize = 0) /\
  (forall pt, CBCDecrypt key src = Ok pt -> len pt = len src - BlockSize) /\
  (valid_key_len (len key) = false ->
   CBCDecrypt key src = Error (KeySizeError (len key))) /\
  (valid_key_len (len key) = true -> len src < BlockSize ->
   CBCDecrypt key src = Error (errorString "ciphertext too short")).
Proof.
  split; [split|split; [|split]].
  - intros [pt Hrun]. apply CBCDecrypt_Ok_inv in Hrun. tauto.
  - intros (Hkey & Hlen & Hmod).
    destruct (CBCDecrypt_returns key src Hkey Hlen Hmod) as [Hrun _]. eauto.
  - intros pt Hrun. apply CBCDecrypt_Ok_inv in Hrun. tauto.
  - intros Hkey. unfold CBCDecrypt, NewCipher. now rewrite Hkey.
  - intros Hkey Hshort. unfold CBCDecrypt, NewCipher. rewrite Hkey.
    destruct (Z.ltb_spec (len src) BlockSize); [reflexivity|lia].
Qed.

(** On a ciphertext that has come out of [CBCEncrypt]'s block loop. *)
Lemma CBCDecrypt_encrypted {L : BlockCipherLaws C} (key iv s : list byte) :
  valid_key_len (len key) = true ->
  len s mod BlockSize = 0 ->
  List.length iv = bs ->
  CBCDecrypt key (iv ++ cbcEncryptBlocks key iv s (Z.to_nat (len s / BlockSize)))
  = Ok s.
Proof.
  intros Hkey Hmod Hiv.
  pose proof (blocks_of_len s Hmod) as Hs.
  set (n := Z.to_nat (len s / BlockSize)) in *.
  pose proof (length_cbcEncryptBlocks key n iv s Hiv Hs) as Hbody.
  set (ct := iv ++ cbcEncryptBlocks key iv s n).
  assert (Hfst : firstn bs ct = iv).
  { unfold ct. rewrite firstn_app, Hiv, Nat.sub_diag.
    cbn [firstn]. rewrite firstn_all2 by lia. apply app_nil_r. }
  assert (Hsnd : skipn bs ct = cbcEncryptBlocks key iv s n).
  { unfold ct. rewrite skipn_app, Hiv, Nat.sub_diag.
    cbn [skipn]. rewrite skipn_all2 by lia. reflexivity. }
  assert (Hct : len ct = BlockSize + len s).
  { unfold ct. rewrite len_app. unfold len.
    rewrite Hiv, Hbody, Hs, bs_16. unfold BlockSize. lia. }
  assert (Hctmod : len ct mod BlockSize = 0).
  { rewrite Hct. unfold BlockSize in *.
    pose proof (Z.div_mod (len s) 16 ltac:(lia)) as Hdm.
    replace (16 + len s) with ((len s / 16 + 1) * 16) by lia.
    apply Z.mod_mul. lia. }
  destruct (CBCDecrypt_returns key ct Hkey) as (Hret & _ & _);
    [pose proof (len_nonneg s); lia|assumption|].
  rewrite Hret, Hfst, Hsnd.
  assert (Hlb : len (cbcEncryptBlocks key iv s n) = len s).
  { unfold len. rewrite Hbody, Hs. reflexivity. }
  rewrite Hlb. fold n. f_equal. apply cbc_blocks_round_trip; assumption.
Qed.

(** X7: For every plaintext, of any length, [CBCPKCS7Encrypt] under a key of 16,
    24 or 32 bytes returns a ciphertext as soon as the random source has a
    block to deliver; the ciphertext has [16 + len(p) + (16 - len(p) mod 16)]
    bytes, and [CBCPKCS7Decrypt] under the same key returns the plaintext. *)
Theorem CBCPKCS7_round_trip {L : BlockCipherLaws C} (key p rand : list byte) :
  valid_key_len (len key) = true ->
  BlockSize <= len rand ->
  exists ct,
    CBCPKCS7Encrypt key p rand = (Ok ct, skipn bs rand) /\
    len ct = BlockSize + len p + (BlockSize - len p mod BlockSize) /\
    CBCPKCS7Decrypt key ct = Done (Ok p).
Proof.
  intros Hkey Hrand.
  pose proof (PKCS7Padding_aligned p) as Hal.
  assert (Hiv : List.length (firstn bs rand) = bs).
  { rewrite length_firstn, bs_16. unfold len, BlockSize in Hrand. lia. }
  eexists. split; [|split].
  - unfold CBCPKCS7Encrypt. apply CBCEncrypt_returns; assumption.
  - pose proof (blocks_of_len _ Hal) as Hs.
    rewrite len_app. unfold len at 1 2.
    rewrite Hiv, (length_cbcEncryptBlocks key _ _ _ Hiv Hs), <- Hs, bs_16.
    fold (len (PKCS7Padding p)). rewrite len_PKCS7Padding.
    unfold BlockSize. lia.
  - unfold CBCPKCS7Decrypt.
    rewrite (CBCDecrypt_encrypted key _ _ Hkey Hal Hiv).
    unfold PKCS7Padding.
    rewrite PKCS7UnPadding_app_repeat by apply padding_range.
    reflexivity.
Qed.

(** X8: [CBCPKCS7Decrypt] panics, instead of returning an error, exactly on the
    ciphertexts of one block under a key the cipher accepts: the IV alone
    decrypts to the empty plaintext, which [PKCS7UnPadding] indexes out of
    range. *)
Theorem CBCPKCS7Decrypt_panics_iff {D : BlockDecryptLen C} (key src : list byte) :
  ((exists e, CBCPKCS7Decrypt key src = Panic e) <->
   valid_key_len (len key) = true /\ len src = BlockSize) /\
  (valid_key_len (len key) = true -> len src = BlockSize ->
   CBCPKCS7Decrypt key src = Panic IndexOutOfRange).
Proof.
  assert (Hone : valid_key_len (len key) = true -> len src = BlockSize ->
                 CBCPKCS7Decrypt key src = Panic IndexOutOfRange).
  { intros Hkey Hlen. unfold CBCPKCS7Decrypt.
    destruct (CBCDecrypt_returns key src Hkey) as (Hret & Hskip & _);
      [lia|rewrite Hlen; reflexivity|].
    rewrite Hret, Hskip, Hlen, Z.sub_diag. reflexivity. }
  split; [split|exact Hone].
  - intros [e He]. unfold CBCPKCS7Decrypt in He.
    destruct (CBCDecrypt key src) as [pt|err] eqn:Hdec; [|discriminate].
    apply CBCDecrypt_Ok_inv in Hdec. destruct Hdec as (Hkey & Hlen & Hmod & Hpt).
    split; [exact Hkey|].
    destruct (Z.eq_dec (len src) BlockSize) as [|Hne]; [assumption|exfalso].
    assert (Hbig : BlockSize <= len pt).
    { rewrite Hpt. unfold BlockSize in *.
      pose proof (Z.div_mod (len src) 16 ltac:(lia)). lia. }
    destruct (PKCS7UnPadding_returns pt) as [r Hr].
    + unfold BlockSize in *. lia.
    + pose proof (byte.unsigned_range (last pt Byte.x00)).
      unfold BlockSize in *. lia.
    + rewrite Hr in He. destruct r; discriminate.
  - intros [Hkey Hlen]. eauto.
Qed.

End CBCComposed.

Lemma CBCEncrypt_succeeds_iff_witness :
  @Primitives.CBCEncrypt Stub.xorCipher [Byte.x01] [Byte.x61] (repeat Byte.x07 16)
  = (Error (errorString "plaintext is not a multiple of the block size"),
     repeat Byte.x07 16).
Proof.
  apply (proj1 (proj2 (@CBCEncrypt_succeeds_iff Stub.xorCipher
                         [Byte.x01] [Byte.x61] (repeat Byte.x07 16)))).
  vm_compute. discriminate.
Defined.

Lemma xorCipher_decrypt_len : Primitives.BlockDecryptLen Stub.xorCipher.
Proof.
  split. intros key b Hb. simpl. unfold len in *. now rewrite length_map.
Qed.

Lemma CBCDecrypt_succeeds_iff_witness :
  @Primitives.CBCDecrypt Stub.xorCipher [Byte.x01] (repeat Byte.x07 32)
  = Error (KeySizeError 1).
Proof.
  apply (proj1 (proj2 (proj2 (@CBCDecrypt_succeeds_iff Stub.xorCipher
                                xorCipher_decrypt_len
                                [Byte.x01] (repeat Byte.x07 32))))).
  reflexivity.
Defined.

(** Three bytes under a 16-byte key. *)
Lemma CBCPKCS7_round_trip_witness :
  let key := repeat Byte.x2a 16 in
  let p := [Byte.x61; Byte.x62; Byte.x63] in
  exists ct,
    @Primitives.CBCPKCS7Encrypt Stub.xorCipher key p (repeat Byte.x07 16)
    = (Ok ct, []) /\
    len ct = 32 /\
    @Primitives.CBCPKCS7Decrypt Stub.xorCipher key ct = Done (Ok p).
Proof.
  intros key p.
  apply (@CBCPKCS7_round_trip Stub.xorCipher xorCipher_laws key p
           (repeat Byte.x07 16)).
  - reflexivity.
  - vm_compute. discriminate.
Defined.

(** The IV alone. *)
Lemma CBCPKCS7Decrypt_panics_iff_witness :
  @Primitives.CBCPKCS7Decrypt Stub.xorCipher (repeat Byte.x2a 16) (repeat Byte.x07 16)
  = Panic IndexOutOfRange.
Proof.
  apply (proj2 (@CBCPKCS7Decrypt_panics_iff Stub.xorCipher xorCipher_decrypt_len
                  (repeat Byte.x2a 16) (repeat Byte.x07 16)));
    reflexivity.
Defined.

(** ** HMAC: nested truncations and the AES key length *)

Section HMACMore.
Import Primitives.
Context {M : MAC}.

Lemma HMACTruncated_within (key x : list byte) (n : Z) :
  0 <= n <= slice_len (HMAC key x) ->
  HMACTruncated key x n
  = Done (mkSlice (firstn (Z.to_nat n) (elems (HMAC key x)))
                  (skipn (Z.to_nat n) (elems (HMAC key x) ++ spare (HMAC key x)))).
Proof.
  intros Hn. unfold HMACTruncated, HMAC in *.
  pose proof (len_nonneg (spare (macSum key x))).
  rewrite reslice_to_in_range by (unfold slice_len, slice_cap in *; lia).
  do 2 f_equal. rewrite firstn_app.
  replace (Z.to_nat n - List.length (elems (macSum key x)))%nat with O
    by (unfold slice_len, len in Hn; lia).
  cbn [firstn]. apply app_nil_r.
Qed.

(** X9: Truncations nest: for [0 <= m <= n <=] the length of the tag, the tag
    truncated to [m] is the first [m] bytes of the tag truncated to [n], and
    the truncation to the full length is the tag itself.  A truncated tag
    keeps the buffer of the full one: reslicing it to the full length gives
    the whole tag back. *)
Theorem HMACTruncated_nested (key x : list byte) (m n : Z) :
  0 <= m <= n -> n <= slice_len (HMAC key x) ->
  exists tm tn full,
    HMACTruncated key x m = Done tm /\
    HMACTruncated key x n = Done tn /\
    HMACTruncated key x (slice_len (HMAC key x)) = Done full /\
    elems tm = firstn (Z.to_nat m) (elems tn) /\
    elems full = elems (HMAC key x) /\
    option_map elems (reslice_to tm (slice_len (HMAC key x)))
    = Some (elems (HMAC key x)).
Proof.
  intros Hm Hn.
  pose proof (len_nonneg (elems (HMAC key x))) as He.
  pose proof (len_nonneg (spare (HMAC key x))) as Hs.
  do 3 eexists.
  split; [apply HMACTruncated_within; lia|].
  split; [apply HMACTruncated_within; lia|].
  split; [apply HMACTruncated_within; unfold slice_len; lia|].
  cbn [elems spare]. split; [|split].
  - rewrite firstn_firstn. f_equal. lia.
  - unfold slice_len, len. rewrite Nat2Z.id. apply firstn_all.
  - rewrite reslice_to_in_range; cbn [elems spare].
    + cbn [option_map elems]. f_equal.
      assert (Hsplit : firstn (Z.to_nat m) (elems (HMAC key x))
                       ++ skipn (Z.to_nat m) (elems (HMAC key x) ++ spare (HMAC key x))
                       = elems (HMAC key x) ++ spare (HMAC key x)).
      { assert (Hf : firstn (Z.to_nat m) (elems (HMAC key x) ++ spare (HMAC key x))
                     = firstn (Z.to_nat m) (elems (HMAC key x))).
        { rewrite firstn_app.
          replace (Z.to_nat m - List.length (elems (HMAC key x)))%nat with O
            by (unfold slice_len, len in Hn; lia).
          cbn [firstn]. apply app_nil_r. }
        rewrite <- Hf. apply firstn_skipn. }
      rewrite Hsplit. unfold slice_len, len. rewrite Nat2Z.id.
      rewrite firstn_app, firstn_all, Nat.sub_diag. cbn [firstn].
      apply app_nil_r.
    + unfold slice_cap, slice_len, len in *. cbn [elems spare].
      rewrite length_firstn, length_skipn, length_app. lia.
Qed.

(** X10: [HMACAESTruncated] returns the first 32 bytes of the tag when the tag
    has 32 bytes or more, and panics when the buffer of the tag holds fewer
    than 32. *)
Theorem HMACAESTruncated_key (key x : list byte) :
  (AESKeyLength <= slice_len (HMAC key x) ->
   exists t, HMACAESTruncated key x = Done t /\
             slice_len t = AESKeyLength /\
             elems t = firstn 32 (elems (HMAC key x))) /\
  (slice_cap (HMAC key x) < AESKeyLength ->
   HMACAESTruncated key x = Panic SliceBoundsOutOfRange).
Proof.
  unfold HMACAESTruncated. split.
  - intros Hlen. eexists.
    split; [apply HMACTruncated_within; unfold AESKeyLength in *; lia|].
    split; [|reflexivity].
    unfold slice_len, len in *. cbn [elems]. rewrite length_firstn.
    unfold AESKeyLength in *. lia.
  - intros Hcap. unfold HMACTruncated, HMAC in *.
    rewrite reslice_to_out_of_range by (now right). reflexivity.
Qed.

End HMACMore.

Lemma HMACTruncated_nested_witness :
  exists tm tn,
    @Primitives.HMACTruncated Stub.paddedMAC [Byte.x6b] [Byte.x6d] 4 = Done tm /\
    @Primitives.HMACTruncated Stub.paddedMAC [Byte.x6b] [Byte.x6d] 20 = Done tn /\
    elems tm = firstn 4 (elems tn).
Proof.
  destruct (@HMACTruncated_nested Stub.paddedMAC [Byte.x6b] [Byte.x6d] 4 20)
    as (tm & tn & full & H4 & H20 & _ & Hpre & _).
  - lia.
  - vm_compute. discriminate.
  - exists tm, tn. auto.
Defined.

Lemma HMACAESTruncated_key_witness :
  (exists t, @Primitives.HMACAESTruncated Stub.paddedMAC [Byte.x6b] [Byte.x6d] = Done t /\
             slice_len t = 32) /\
  @Primitives.HMACAESTruncated Stub.shortMAC [Byte.x6b] [Byte.x6d]
  = Panic SliceBoundsOutOfRange.
Proof.
  split.
  - destruct (proj1 (@HMACAESTruncated_key Stub.paddedMAC [Byte.x6b] [Byte.x6d]))
      as (t & Ht & Hl & _).
    + vm_compute. discriminate.
    + exists t. auto.
  - apply (proj2 (@HMACAESTruncated_key Stub.shortMAC [Byte.x6b] [Byte.x6d])).
    reflexivity.
Defined.

(** ** The life cycle: flags, successes and what failures leave behind *)

Section LifeCycleMore.
Import Crypto.
Context {W : Type} {N : NodeInternals W}.

Ltac walk_register :=
  rewrite register_paths;
  repeat match goal with
         | |- context [match ?m ?w with _ => _ end] =>
             destruct (m w) as [[[]|?] ?] eqn:?; cbn
         | |- context [if ?b then _ else _] => destruct b eqn:?; cbn
         end.

Ltac walk_init :=
  rewrite init_paths;
  repeat match goal with
         | |- context [match ?m ?w with _ => _ end] =>
             destruct (m w) as [[[]|?] ?] eqn:?; cbn
         | |- context [if ?b then _ else _] => destruct b eqn:?; cbn
         end.

Lemma register_flags (t : NodeType) (name : string) (pwd : list byte)
  (enrollID enrollPWD : string) (regFunc : option (registerFunc W))
  (node : nodeImpl W) :
  let node' := snd (register t name pwd enrollID enrollPWD regFunc node) in
  isInitialized node' = isInitialized node /\
  eType node' = t /\
  (isRegistered node = true -> isRegistered node' = true).
Proof.
  cbv zeta. walk_register; repeat split; congruence.
Qed.

Lemma init_flags (t : NodeType) (name : string) (pwd : list byte)
  (initFunc : option (initalizationFunc W)) (node : nodeImpl W) :
  let node' := snd (init t name pwd initFunc node) in
  isRegistered node' = isRegistered node /\
  eType node' = t /\
  (isInitialized node = true -> isInitialized node' = true).
Proof.
  cbv zeta. walk_init; repeat split; congruence.
Qed.

(** X11: Whatever requests a node serves, in whatever order and with whatever
    outcome, a life-cycle flag that is set stays set. *)
Theorem flags_never_reset (rs : list (request W)) (node : nodeImpl W) :
  (isRegistered node = true -> isRegistered (serve_requests rs node) = true) /\
  (isInitialized node = true -> isInitialized (serve_requests rs node) = true).
Proof.
  revert node. induction rs as [|r rs IH]; intros node; [split; auto|].
  cbn [serve_requests]. destruct (IH (snd (serve_request r node))) as [IHr IHi].
  destruct r as [t name pwd enrollID enrollPWD regFunc|t name pwd initFunc];
    cbn [serve_request] in *.
  - destruct (register_flags t name pwd enrollID enrollPWD regFunc node)
      as (Hi & _ & Hr).
    split; intros Hflag; [apply IHr, Hr, Hflag|apply IHi; congruence].
  - destruct (init_flags t name pwd initFunc node) as (Hr & _ & Hi).
    split; intros Hflag; [apply IHr; congruence|apply IHi, Hi, Hflag].
Qed.

(** X12: [register] never touches the initialized flag and [init] never touches
    the registered flag, whatever they return; both write the entity type
    they are given, also when they fail. *)
Theorem flags_written_by_their_own_call (t : NodeType) (name : string)
  (pwd : list byte) (enrollID enrollPWD : string)
  (regFunc : option (registerFunc W)) (initFunc : option (initalizationFunc W))
  (node : nodeImpl W) :
  let registered := snd (register t name pwd enrollID enrollPWD regFunc node) in
  let initialized := snd (init t name pwd initFunc node) in
  isInitialized registered = isInitialized node /\
  isRegistered initialized = isRegistered node /\
  eType registered = t /\
  eType initialized = t.
Proof.
  cbv zeta.
  destruct (register_flags t name pwd enrollID enrollPWD regFunc node) as (? & ? & _).
  destruct (init_flags t name pwd initFunc node) as (? & ? & _).
  auto.
Qed.

(** X13: [register] returns [nil] exactly when the node is neither registered
    nor initialized and the four steps succeed in turn; the node is then as
    the hook left it, registered, with the completion line in its log. *)
Theorem register_succeeds_iff (t : NodeType) (name : string)
  (pwd : list byte) (enrollID enrollPWD : string)
  (regFunc : option (registerFunc W)) (node : nodeImpl W) :
  let run := register t name pwd enrollID enrollPWD regFunc node in
  let hook := run_hook (option_map (fun f => f t name pwd enrollID enrollPWD) regFunc) in
  fst run = Ok tt <->
  isRegistered node = false /\ isInitialized node = false /\
  exists w1 w2 w3 w4,
    initConfiguration name (fields node) = (Ok tt, w1) /\
    initKeyStore pwd w1 = (Ok tt, w2) /\
    registerCryptoEngine enrollID enrollPWD w2 = (Ok tt, w3) /\
    hook w3 = (Ok tt, w4) /\
    snd run =
      mkNode true false t w4
             (log node ++ [LogDebugf "Registration of node [%s] with name [%s] completed"
                                     [ANodeType t; AString name]]).
Proof.
  cbv zeta. rewrite register_paths. split.
  - destruct (initConfiguration name (fields node)) as [[[]|e1] w1];
      [|discriminate].
    destruct (initKeyStore pwd w1) as [[[]|e2] w2] eqn:Hk; [|discriminate].
    destruct (isRegistered node); [discriminate|].
    destruct (isInitialized node); [discriminate|].
    destruct (registerCryptoEngine enrollID enrollPWD w2) as [[[]|e3] w3] eqn:He;
      [|discriminate].
    destruct (run_hook _ w3) as [[[]|e4] w4] eqn:Hh; [|discriminate].
    intros _. split; [reflexivity|]. split; [reflexivity|].
    exists w1, w2, w3, w4. repeat split; assumption.
  - intros (Hr & Hi & w1 & w2 & w3 & w4 & Hc & Hk & He & Hh & _).
    rewrite Hc, Hk, Hr, Hi, He, Hh. reflexivity.
Qed.

(** X14: [init] returns [nil] exactly when the node is not initialized and the
    four steps succeed in turn; the node is then as the hook left it,
    initialized, with nothing added to its log.  The registered flag is not
    among the conditions. *)
Theorem init_succeeds_iff (t : NodeType) (name : string) (pwd : list byte)
  (initFunc : option (initalizationFunc W)) (node : nodeImpl W) :
  let run := init t name pwd initFunc node in
  let hook := run_hook (option_map (fun f => f t name pwd) initFunc) in
  fst run = Ok tt <->
  isInitialized node = false /\
  exists w1 w2 w3 w4,
    initConfiguration name (fields node) = (Ok tt, w1) /\
    initKeyStore pwd w1 = (Ok tt, w2) /\
    initCryptoEngine w2 = (Ok tt, w3) /\
    hook w3 = (Ok tt, w4) /\
    snd run = mkNode (isRegistered node) true t w4 (log node).
Proof.
  cbv zeta. rewrite init_paths. split.
  - destruct (initConfiguration name (fields node)) as [[[]|e1] w1];
      [|discriminate].
    destruct (initKeyStore pwd w1) as [[[]|e2] w2] eqn:Hk; [|discriminate].
    destruct (isInitialized node); [discriminate|].
    destruct (initCryptoEngine w2) as [[[]|e3] w3] eqn:He; [|discriminate].
    destruct (run_hook _ w3) as [[[]|e4] w4] eqn:Hh; [|discriminate].
    intros _. split; [reflexivity|].
    exists w1, w2, w3, w4. repeat split; assumption.
  - intros (Hi & w1 & w2 & w3 & w4 & Hc & Hk & He & Hh & _).
    rewrite Hc, Hk, Hi, He, Hh. reflexivity.
Qed.

(** X15: [init] does not read the registered flag: on two nodes that differ in
    that flag only, it returns the same and leaves nodes that still differ
    in that flag only. *)
Theorem init_ignores_registration (t : NodeType) (name : string)
  (pwd : list byte) (initFunc : option (initalizationFunc W))
  (node : nodeImpl W) (b : bool) :
  let run := init t name pwd initFunc node in
  init t name pwd initFunc
       (mkNode b (isInitialized node) (eType node) (fields node) (log node))
  = (fst run,
     mkNode b (isInitialized (snd run)) (eType (snd run)) (fields (snd run))
            (log (snd run))).
Proof.
  cbv zeta. rewrite !init_paths. cbn [fields isInitialized isRegistered log].
  destruct (initConfiguration name (fields node)) as [[[]|e1] w1]; [|reflexivity].
  destruct (initKeyStore pwd w1) as [[[]|e2] w2]; [|reflexivity].
  destruct (isInitialized node); [reflexivity|].
  destruct (initCryptoEngine w2) as [[[]|e3] w3]; [|reflexivity].
  destruct (run_hook _ w3) as [[[]|e4] w4]; reflexivity.
Qed.

(** X16: Registration after initialization is refused: on a node that is
    initialized and not registered, a [register] call whose configuration
    and key-store steps succeed returns [ErrAlreadyInitialized] and enrolls
    nothing. *)
Theorem register_after_init (t : NodeType) (name : string)
  (pwd : list byte) (enrollID enrollPWD : string)
  (regFunc : option (registerFunc W)) (node : nodeImpl W) (w1 w2 : W) :
  isRegistered node = false ->
  isInitialized node = true ->
  initConfiguration name (fields node) = (Ok tt, w1) ->
  initKeyStore pwd w1 = (Ok tt, w2) ->
  register t name pwd enrollID enrollPWD regFunc node
  = (Error ErrAlreadyInitialized, mkNode false true t w2 (log node)).
Proof.
  intros Hr Hi Hc Hk. rewrite register_paths, Hc, Hk, Hr, Hi. reflexivity.
Qed.

(** X17: Nothing is rolled back: when the hook of [register] fails after the
    configuration, the key store and the enrollment have succeeded, the
    call returns the hook's error and the node keeps what all four steps
    have written, with the registered flag down and nothing logged. *)
Theorem register_hook_failure_keeps_effects (t : NodeType) (name : string)
  (pwd : list byte) (enrollID enrollPWD : string)
  (hook : registerFunc W) (node : nodeImpl W) (w1 w2 w3 w4 : W) (e : error) :
  isRegistered node = false ->
  isInitialized node = false ->
  initConfiguration name (fields node) = (Ok tt, w1) ->
  initKeyStore pwd w1 = (Ok tt, w2) ->
  registerCryptoEngine enrollID enrollPWD w2 = (Ok tt, w3) ->
  hook t name pwd enrollID enrollPWD w3 = (Error e, w4) ->
  register t name pwd enrollID enrollPWD (Some hook) node
  = (Error e, mkNode false false t w4 (log node)).
Proof.
  intros Hr Hi Hc Hk He Hh.
  rewrite register_paths, Hc, Hk, Hr, Hi, He. cbn [option_map run_hook].
  rewrite Hh. reflexivity.
Qed.

(** X18: A call adds at most one record to the log and keeps the records that
    were there. *)
Theorem log_grows_by_one (t : NodeType) (name : string)
  (pwd : list byte) (enrollID enrollPWD : string)
  (regFunc : option (registerFunc W)) (initFunc : option (initalizationFunc W))
  (node : nodeImpl W) :
  (exists l, log (snd (register t name pwd enrollID enrollPWD regFunc node))
             = log node ++ l /\ (List.length l <= 1)%nat) /\
  (exists l, log (snd (init t name pwd initFunc node))
             = log node ++ l /\ (List.length l <= 1)%nat).
Proof.
  split.
  - walk_register;
      first [ exists []; split; [symmetry; apply app_nil_r|simpl; lia]
            | eexists; split; [reflexivity|simpl; lia] ].
  - walk_init;
      first [ exists []; split; [symmetry; apply app_nil_r|simpl; lia]
            | eexists; split; [reflexivity|simpl; lia] ].
Qed.

End LifeCycleMore.

(** ** getSecHelper: one attempt per process *)

Section SecHelperMore.
Import Node.
Context {Env Peer : Type} {K : Collaborators Env Peer}.

Lemma getSecHelper_marked (q : process Env) :
  once_done q = true -> getSecHelper q = ((None, None), q).
Proof.
  intros Hq. unfold getSecHelper, once_Do. now rewrite Hq.
Qed.

Lemma getSecHelper_marks (p : process Env) :
  once_done (snd (getSecHelper p)) = true.
Proof.
  unfold getSecHelper, once_Do.
  destruct (once_done p) eqn:Hp; [exact Hp|].
  destruct (closure (None, None) p) as [l p']. reflexivity.
Qed.

Lemma ValidatorEnabled_frame (q : process Env) :
  calls (snd (ValidatorEnabled q)) = calls q /\
  once_done (snd (ValidatorEnabled q)) = once_done q.
Proof.
  destruct q as [done c ve cs e].
  unfold ValidatorEnabled, CacheConfiguration, on_env, bind, ret, get, modify.
  cbn. destruct c; cbn; [split; reflexivity|].
  destruct (viper_GetBool "peer.validator.enabled" e) as [v e']. cbn.
  split; reflexivity.
Qed.

Lemma getSecHelper_attempt_shape (p : process Env) :
  once_done p = false ->
  exists l,
    calls (snd (getSecHelper p)) = calls p ++ l /\
    attempt_shape l (fst (getSecHelper p)).
Proof.
  intros Hp.
  unfold getSecHelper, once_Do. rewrite Hp.
  unfold closure, ValidatorEnabled, CacheConfiguration, record_call, on_env,
    bind, ret, get, modify.
  destruct p as [done cachedp ve cs e]. cbn.
  destruct (core_SecurityEnabled e) as [[|] e1]; cbn;
    [|exists []; split; [symmetry; apply app_nil_r|reflexivity]].
  destruct (viper_GetString "security.enrollID" e1) as [id e2]; cbn.
  destruct (viper_GetString "security.enrollSecret" e2) as [secret e3]; cbn.
  destruct cachedp; cbn.
  - destruct ve; cbn.
    + destruct (crypto_RegisterValidator id [] id secret e3) as [[err|] e4]; cbn.
      * eexists. split; [reflexivity|]. cbn. repeat split. discriminate.
      * destruct (crypto_InitValidator id [] e4) as [r e5]; cbn.
        rewrite <- app_assoc. eexists. split; [reflexivity|]. cbn. auto.
    + destruct (crypto_RegisterPeer id [] id secret e3) as [[err|] e4]; cbn.
      * eexists. split; [reflexivity|]. cbn. repeat split. discriminate.
      * destruct (crypto_InitPeer id [] e4) as [r e5]; cbn.
        rewrite <- app_assoc. eexists. split; [reflexivity|]. cbn. auto.
  - destruct (viper_GetBool "peer.validator.enabled" e3) as [[|] e3']; cbn.
    + destruct (crypto_RegisterValidator id [] id secret e3') as [[err|] e4]; cbn.
      * eexists. split; [reflexivity|]. cbn. repeat split. discriminate.
      * destruct (crypto_InitValidator id [] e4) as [r e5]; cbn.
        rewrite <- app_assoc. eexists. split; [reflexivity|]. cbn. auto.
    + destruct (crypto_RegisterPeer id [] id secret e3') as [[err|] e4]; cbn.
      * eexists. split; [reflexivity|]. cbn. repeat split. discriminate.
      * destruct (crypto_InitPeer id [] e4) as [r e5]; cbn.
        rewrite <- app_assoc. eexists. split; [reflexivity|]. cbn. auto.
Qed.

(** X19: The first attempt of [getSecHelper].  When security is off it
    makes no call into package [crypto] and returns [(nil, nil)].  When
    security is on it registers the role [peer.ValidatorEnabled] selects,
    under the enroll ID and secret read from [viper]; if the registration
    returns an error, that error is returned with no helper and nothing is
    initialized; only if it returns [nil] is the same role initialized under
    the same name, and the result of that initialization is what the call
    returns.  In every case the calls made have one of the shapes of
    [attempt_shape]. *)
Theorem getSecHelper_attempt (p : process Env) :
  once_done p = false ->
  let run := getSecHelper p in
  (exists l, calls (snd run) = calls p ++ l /\ attempt_shape l (fst run)) /\
  (forall e1,
     core_SecurityEnabled (env p) = (false, e1) ->
     run = ((None, None),
            mkProcess true (configurationCached p) (validatorEnabled p)
                      (calls p) e1)) /\
  (forall e1 id e2 secret e3 validator p3,
     core_SecurityEnabled (env p) = (true, e1) ->
     viper_GetString "security.enrollID" e1 = (id, e2) ->
     viper_GetString "security.enrollSecret" e2 = (secret, e3) ->
     ValidatorEnabled
       (mkProcess false (configurationCached p) (validatorEnabled p) (calls p) e3)
     = (validator, p3) ->
     let register :=
       if validator then crypto_RegisterValidator else crypto_RegisterPeer in
     let initialize :=
       if validator then crypto_InitValidator else crypto_InitPeer in
     let registration :=
       if validator then CallRegisterValidator id id secret
       else CallRegisterPeer id id secret in
     let initialization :=
       if validator then CallInitValidator id else CallInitPeer id in
     let after l e :=
       mkProcess true (configurationCached p3) (validatorEnabled p3)
                 (calls p ++ l) e in
     (forall err e4,
        register id [] id secret (env p3) = (Some err, e4) ->
        run = ((None, Some err), after [registration] e4)) /\
     (forall e4 r e5,
        register id [] id secret (env p3) = (None, e4) ->
        initialize id [] e4 = (r, e5) ->
        run = (r, after [registration; initialization] e5))).
Proof.
  intros Hp run. subst run.
  split; [now apply getSecHelper_attempt_shape|].
  destruct p as [done c ve cs e]. cbn in Hp. subst done.
  unfold getSecHelper, once_Do. cbn [once_done].
  unfold closure, record_call, on_env, bind, ret, modify.
  cbn [env calls configurationCached validatorEnabled once_done].
  split.
  - intros e1 Hsec. rewrite Hsec. reflexivity.
  - intros e1 id e2 secret e3 validator p3 Hsec Hid Hsecret Hve.
    rewrite Hsec. cbn -[ValidatorEnabled].
    rewrite Hid. cbn -[ValidatorEnabled].
    rewrite Hsecret. cbn -[ValidatorEnabled].
    rewrite Hve.
    pose proof (ValidatorEnabled_frame (mkProcess false c ve cs e3)) as [Hcalls Honce].
    rewrite Hve in Hcalls, Honce. cbn in Hcalls, Honce.
    destruct p3 as [done3 c3 ve3 cs3 env3]. cbn in Hcalls, Honce. subst cs3 done3.
    cbv zeta. destruct validator; cbn -[ValidatorEnabled]; split.
    + intros err e4 Hreg. rewrite Hreg. reflexivity.
    + intros e4 r e5 Hreg Hinit. rewrite Hreg. cbn. rewrite Hinit. cbn.
      rewrite <- app_assoc. reflexivity.
    + intros err e4 Hreg. rewrite Hreg. reflexivity.
    + intros e4 r e5 Hreg Hinit. rewrite Hreg. cbn. rewrite Hinit. cbn.
      rewrite <- app_assoc. reflexivity.
Qed.

(** X20: Any number of calls amounts to the first one: the calls after the
    first return [(nil, nil)] and the process is left as the first call
    left it, so that package [crypto] is entered by the first attempt
    only. *)
Theorem getSecHelper_calls_once (n : nat) (p : process Env) :
  getSecHelper_calls (S n) p
  = (fst (getSecHelper p) :: repeat (None, None) n, snd (getSecHelper p)).
Proof.
  cbn [getSecHelper_calls]. unfold bind, ret.
  destruct (getSecHelper p) as [r p1] eqn:Hfirst. cbn [fst snd].
  assert (Hmark : once_done p1 = true).
  { pose proof (getSecHelper_marks p) as Hm. now rewrite Hfirst in Hm. }
  clear Hfirst.
  enough (Hrest : getSecHelper_calls n p1 = (repeat (None, None) n, p1))
    by (now rewrite Hrest).
  induction n as [|n IH]; [reflexivity|].
  cbn [getSecHelper_calls repeat]. unfold bind, ret.
  rewrite (getSecHelper_marked p1 Hmark), IH. reflexivity.
Qed.

End SecHelperMore.

(** A validator whose enrollment is refused: one registration, no
    initialization, the refusal returned. *)
Lemma getSecHelper_attempt_witness :
  let e := Stub.mkPeerEnv true true "vp0" "secret" false in
  @Node.getSecHelper _ _ Stub.peerCollaborators (Stub.freshProcess e)
  = ((None, Some (errorString "enrollment refused")),
     Node.mkProcess true true true [Node.CallRegisterValidator "vp0" "vp0" "secret"] e).
Proof.
  intros e.
  apply (proj1 (proj2 (proj2 (@getSecHelper_attempt _ _ Stub.peerCollaborators
                                (Stub.freshProcess e) eq_refl))
                      e "vp0"%string e "secret"%string e true
                      (Node.mkProcess false true true [] e)
                      eq_refl eq_refl eq_refl eq_refl)
               (errorString "enrollment refused") e).
  reflexivity.
Defined.

(** ** The configuration caches *)

Section CommCache.
Import Comm.

(** X21: [comm.TLSEnabled] answers with the setting read by the first call: a
    later change of the configuration is not seen until
    [CacheConfiguration] runs again.  Neither function ever logs. *)
Theorem TLSEnabled_first_answer_sticks (p : package) (v : string -> bool) :
  let first := TLSEnabled p in
  (configurationCached p = false ->
   fst first = viper_GetBool p "peer.tls.enabled") /\
  configurationCached (snd first) = true /\
  TLSEnabled (reconfigure v (snd first))
  = (fst first, reconfigure v (snd first)) /\
  fst (TLSEnabled (snd (CacheConfiguration (reconfigure v (snd first)))))
  = v "peer.tls.enabled"%string /\
  logged (snd first) = logged p.
Proof.
  destruct p as [c t g l].
  unfold TLSEnabled, cacheConfiguration, CacheConfiguration, reconfigure,
    bind, ret, get, modify.
  destruct c; cbn; repeat split; congruence.
Qed.

End CommCache.

Lemma TLSEnabled_first_answer_sticks_witness :
  fst (Comm.TLSEnabled (Comm.mkPackage false false (fun _ => true) []))
  = true.
Proof.
  apply (proj1 (TLSEnabled_first_answer_sticks
                  (Comm.mkPackage false false (fun _ => true) [])
                  (fun _ => false))).
  reflexivity.
Defined.

Section PeerCache.
Import PeerConfig.
Context {H : Host}.

(** [CacheConfiguration], path by path. *)
Lemma CacheConfiguration_paths (p : package) :
  let v := viper p in
  let n := errorsBuilt p in
  let type :=
    if GetBool v "peer.validator.enabled"
    then PeerEndpoint_VALIDATOR else PeerEndpoint_NON_VALIDATOR in
  let store la lae pe pee l k :=
    mkPackage true la lae pe pee
              (GetInt v "peer.sync.state.snapshot.channelSize")
              (GetInt v "peer.sync.state.deltas.channelSize")
              (GetInt v "peer.sync.blocks.channelSize")
              (GetBool v "peer.validator.enabled")
              (GetBool v "security.enabled") v l k in
  CacheConfiguration p =
    if GetBool v "peer.addressAutoDetect" then
      match SplitHostPort (GetString v "peer.address") with
      | Error err =>
          let msg := Errorf "Error auto detecting Peer's address: %s" err in
          (Some (mkErrorValue n msg),
           store ""%string (Some (mkErrorValue n msg)) None
                 (Some (mkErrorValue (S n) msg)) (log p) (S (S n)))
      | Ok (_, port) =>
          let a := JoinHostPort GetLocalIP port in
          (None,
           store a None (Some (mkPeerEndpoint (GetString v "peer.id") a type)) None
                 (log p ++ [LogInfof "Auto detected peer address: %s" a;
                            LogInfof "Auto detected peer address: %s" a]) n)
      end
    else
      let a := GetString v "peer.address" in
      (None,
       store a None (Some (mkPeerEndpoint (GetString v "peer.id") a type)) None
             (log p) n).
Proof.
  destruct p as [c la lae pe pee s1 s2 s3 ve se v l n]. cbv zeta.
  unfold CacheConfiguration, getPeerEndpoint, getLocalAddress, new_error, logger,
    bind, ret, get, modify.
  cbn.
  destruct (GetBool v "peer.addressAutoDetect") eqn:Ha; cbn; rewrite ?Ha; cbn;
    [|reflexivity].
  destruct (SplitHostPort (GetString v "peer.address")) as [[h port]|err] eqn:Hs;
    cbn; rewrite ?Ha; cbn; rewrite ?Hs; cbn.
  - rewrite <- app_assoc. reflexivity.
  - reflexivity.
Qed.

Lemma CacheConfiguration_settings (p : package) :
  settings_cached p (snd (CacheConfiguration p)).
Proof.
  rewrite CacheConfiguration_paths. cbv zeta.
  destruct (GetBool (viper p) "peer.addressAutoDetect");
    [destruct (SplitHostPort (GetString (viper p) "peer.address")) as [[h port]|err]|];
    cbn; repeat split.
Qed.

(** X22: [CacheConfiguration] returns an error exactly when address
    detection is on and [peer.address] has no host and port to split.  Even
    then the package is marked as cached and the settings read from [viper]
    are stored; the address is empty and there is no endpoint.  The error
    returned is the cached [localAddressError]; [peerEndpointError] is
    another value, built by the second run of the detection, with the same
    message. *)
Theorem CacheConfiguration_failure (p : package) :
  let run := CacheConfiguration p in
  ((exists e, fst run = Some e) <->
   GetBool (viper p) "peer.addressAutoDetect" = true /\
   exists err, SplitHostPort (GetString (viper p) "peer.address") = Error err) /\
  settings_cached p (snd run) /\
  (forall e, fst run = Some e ->
     localAddress (snd run) = ""%string /\
     peerEndpoint (snd run) = None /\
     localAddressError (snd run) = Some e /\
     (exists e', peerEndpointError (snd run) = Some e' /\
                 content e' = content e /\
                 same_error e e' = false) /\
     log (snd run) = log p).
Proof.
  cbv zeta. split; [|split].
  - rewrite CacheConfiguration_paths. cbv zeta.
    destruct (GetBool (viper p) "peer.addressAutoDetect");
      [destruct (SplitHostPort (GetString (viper p) "peer.address"))
         as [[h port]|err]|]; cbn.
    + split; [intros [e He]; discriminate|intros [_ [err Herr]]; discriminate].
    + split; intros _; eauto.
    + split; [intros [e He]; discriminate|intros [Hf _]; discriminate].
  - apply CacheConfiguration_settings.
  - rewrite CacheConfiguration_paths. cbv zeta.
    destruct (GetBool (viper p) "peer.addressAutoDetect");
      [destruct (SplitHostPort (GetString (viper p) "peer.address"))
         as [[h port]|err]|]; cbn -[same_error];
      intros e He; try discriminate.
    injection He as <-.
    split; [reflexivity|]. split; [reflexivity|]. split; [reflexivity|].
    split; [|reflexivity].
    eexists. split; [reflexivity|]. split; [reflexivity|].
    unfold same_error. cbn [ident]. apply Nat.eqb_neq. lia.
Qed.

(** X23: After [CacheConfiguration] the cached values agree with each
    other: what the call returned is the cached [localAddressError]; the two
    cached errors are both [nil] or carry the same message, and when they
    are not [nil] they are two values that [==] tells apart; there is an
    endpoint exactly when there is no error, its address is the cached local
    address, and its type is [VALIDATOR] exactly when the cached validator
    setting is on, [NON_VALIDATOR] otherwise. *)
Theorem CacheConfiguration_consistent (p : package) :
  let q := snd (CacheConfiguration p) in
  fst (CacheConfiguration p) = localAddressError q /\
  option_map content (localAddressError q)
  = option_map content (peerEndpointError q) /\
  (forall a b, localAddressError q = Some a -> peerEndpointError q = Some b ->
               same_error a b = false) /\
  match peerEndpoint q with
  | Some ep =>
      localAddressError q = None /\
      Address ep = localAddress q /\
      ID_Name ep = GetString (viper p) "peer.id" /\
      Type_ ep = (if validatorEnabled q
                  then PeerEndpoint_VALIDATOR else PeerEndpoint_NON_VALIDATOR)
  | None => localAddressError q <> None
  end.
Proof.
  cbv zeta. rewrite CacheConfiguration_paths. cbv zeta.
  destruct (GetBool (viper p) "peer.addressAutoDetect");
    [destruct (SplitHostPort (GetString (viper p) "peer.address"))
       as [[h port]|err]|];
    cbn; repeat split; try discriminate.
  intros a b [= <-] [= <-]. unfold same_error. cbn [ident].
  apply Nat.eqb_neq. lia.
Qed.

(** X24: With address detection on, the host part of [peer.address] is dropped:
    the cached address joins the host's own address with the port of
    [peer.address], and each run of [CacheConfiguration] detects and logs
    it twice. *)
Theorem CacheConfiguration_autodetect (p : package) (h port : string) :
  GetBool (viper p) "peer.addressAutoDetect" = true ->
  SplitHostPort (GetString (viper p) "peer.address") = Ok (h, port) ->
  let run := CacheConfiguration p in
  fst run = None /\
  localAddress (snd run) = JoinHostPort GetLocalIP port /\
  log (snd run)
  = log p ++ repeat (LogInfof "Auto detected peer address: %s"
                              (JoinHostPort GetLocalIP port)) 2.
Proof.
  intros Ha Hs. cbv zeta. rewrite CacheConfiguration_paths. cbv zeta.
  rewrite Ha, Hs. repeat split.
Qed.

Lemma cached_first_use {A : Type} (read : package -> A) (p : package) :
  configurationCached p = false ->
  cached read p =
    let run := CacheConfiguration p in
    match fst run with
    | Some err =>
        let q := snd (logger (LogErrorf "Execution continues after CacheConfiguration() failure : %s" err)
                             (snd run)) in
        (read q, q)
    | None => (read (snd run), snd run)
    end.
Proof.
  intros Hc. unfold cached, cacheConfiguration, bind, ret, get.
  rewrite Hc. cbv zeta.
  destruct (CacheConfiguration p) as [[err|] q]; cbn [fst snd].
  - destruct (logger _ q) as [[] q']. reflexivity.
  - reflexivity.
Qed.

Lemma cached_later_use {A : Type} (read : package -> A) (p : package) :
  configurationCached p = true -> cached read p = (read p, p).
Proof.
  intros Hc. unfold cached, bind, ret, get. rewrite Hc. reflexivity.
Qed.

(** X25: On first use [ValidatorEnabled] and [SecurityEnabled] answer with the
    setting of [viper], also when caching the configuration fails; the
    package is marked as cached in both cases, so that the answer stays
    the same after the configuration has changed. *)
Theorem settings_read_once (p : package) (v : viperConfig) :
  configurationCached p = false ->
  let first := ValidatorEnabled p in
  fst first = GetBool (viper p) "peer.validator.enabled" /\
  fst (SecurityEnabled p) = GetBool (viper p) "security.enabled" /\
  configurationCached (snd first) = true /\
  ValidatorEnabled (reconfigure v (snd first))
  = (fst first, reconfigure v (snd first)).
Proof.
  intros Hc. cbv zeta. unfold ValidatorEnabled, SecurityEnabled.
  rewrite !(cached_first_use _ p Hc). cbv zeta.
  destruct (CacheConfiguration_settings p) as (Hcached & _ & _ & _ & Hv & Hs & _).
  destruct (fst (CacheConfiguration p)) as [err|]; cbn [fst snd].
  - unfold logger, modify. cbn [fst snd validatorEnabled securityEnabled configurationCached].
    repeat split; try assumption.
    rewrite cached_later_use by exact Hcached. reflexivity.
  - repeat split; try assumption.
    rewrite cached_later_use by exact Hcached. reflexivity.
Qed.

(** X26: A failed address detection is cached.  The first
    [GetLocalAddress] returns the error built by the first run of the
    detection and logs, with that error, that execution continues.  Later
    calls try nothing again, also after the configuration has been
    repaired: [GetLocalAddress] returns that same value, and
    [GetPeerEndpoint] returns no endpoint and the value built by the second
    run of the detection, which carries the same message and is another
    value under [==]. *)
Theorem detection_failure_sticks (p : package) (v : viperConfig) (err : error) :
  configurationCached p = false ->
  GetBool (viper p) "peer.addressAutoDetect" = true ->
  SplitHostPort (GetString (viper p) "peer.address") = Error err ->
  let msg := Errorf "Error auto detecting Peer's address: %s" err in
  let e := mkErrorValue (errorsBuilt p) msg in
  let e' := mkErrorValue (S (errorsBuilt p)) msg in
  let first := GetLocalAddress p in
  fst first = (""%string, Some e) /\
  log (snd first)
  = log p ++ [LogErrorf "Execution continues after CacheConfiguration() failure : %s" e] /\
  GetLocalAddress (reconfigure v (snd first))
  = ((""%string, Some e), reconfigure v (snd first)) /\
  GetPeerEndpoint (reconfigure v (snd first))
  = ((None, Some e'), reconfigure v (snd first)) /\
  same_error e e' = false.
Proof.
  intros Hc Ha Hs. cbv zeta. unfold GetLocalAddress, GetPeerEndpoint.
  rewrite (cached_first_use _ p Hc). cbv zeta.
  rewrite CacheConfiguration_paths. cbv zeta. rewrite Ha, Hs.
  cbn [fst snd]. unfold logger, modify. cbn -[Nat.eqb].
  repeat split.
  unfold same_error. cbn [ident]. apply Nat.eqb_neq. lia.
Qed.

End PeerCache.

(** Detection on a host at 10.0.0.5, from the address 0.0.0.0:7051. *)
Lemma CacheConfiguration_autodetect_witness :
  let p := Stub.uncached (Stub.peerViper "0.0.0.0:7051" true) in
  fst (@PeerConfig.CacheConfiguration Stub.host p) = None /\
  PeerConfig.localAddress (snd (@PeerConfig.CacheConfiguration Stub.host p))
  = "10.0.0.5:7051"%string.
Proof.
  intros p.
  destruct (@CacheConfiguration_autodetect Stub.host p "0.0.0.0" "7051"
              eq_refl eq_refl) as (Hr & Ha & _).
  split; [exact Hr|exact Ha].
Defined.

(** An address without a port: the failure is cached, with two error
    values of one message. *)
Lemma CacheConfiguration_failure_witness :
  let p := Stub.uncached (Stub.peerViper "localhost" true) in
  let msg :=
    errorString "Error auto detecting Peer's address: address localhost: missing port in address" in
  fst (@PeerConfig.CacheConfiguration Stub.host p)
  = Some (PeerConfig.mkErrorValue 0 msg) /\
  PeerConfig.configurationCached (snd (@PeerConfig.CacheConfiguration Stub.host p))
  = true /\
  PeerConfig.peerEndpoint (snd (@PeerConfig.CacheConfiguration Stub.host p)) = None /\
  PeerConfig.peerEndpointError (snd (@PeerConfig.CacheConfiguration Stub.host p))
  = Some (PeerConfig.mkErrorValue 1 msg).
Proof.
  intros p msg.
  destruct (@CacheConfiguration_failure Stub.host p) as (_ & Hset & Hfail).
  split; [reflexivity|]. split; [exact (proj1 Hset)|].
  destruct (Hfail (PeerConfig.mkErrorValue 0 msg) eq_refl)
    as (_ & Hpe & _ & _ & _).
  split; [exact Hpe|reflexivity].
Defined.

Lemma settings_read_once_witness :
  let p := Stub.uncached (Stub.peerViper "localhost" true) in
  fst (@PeerConfig.ValidatorEnabled Stub.host p) = true /\
  fst (@PeerConfig.ValidatorEnabled Stub.host
         (PeerConfig.reconfigure (Stub.peerViper "localhost" false)
            (snd (@PeerConfig.ValidatorEnabled Stub.host p)))) = true.
Proof.
  intros p.
  destruct (@settings_read_once Stub.host p (Stub.peerViper "localhost" false) eq_refl)
    as (Hv & _ & _ & Hlater).
  split; [exact Hv|]. rewrite Hlater. exact Hv.
Defined.

Lemma detection_failure_sticks_witness :
  let p := Stub.uncached (Stub.peerViper "localhost" true) in
  let repaired := Stub.peerViper "0.0.0.0:7051" true in
  let msg :=
    errorString "Error auto detecting Peer's address: address localhost: missing port in address" in
  fst (@PeerConfig.GetLocalAddress Stub.host p)
  = (""%string, Some (PeerConfig.mkErrorValue 0 msg)) /\
  fst (@PeerConfig.GetPeerEndpoint Stub.host
         (PeerConfig.reconfigure repaired (snd (@PeerConfig.GetLocalAddress Stub.host p))))
  = (None, Some (PeerConfig.mkErrorValue 1 msg)).
Proof.
  intros p repaired msg.
  destruct (@detection_failure_sticks Stub.host p repaired
              (errorString "address localhost: missing port in address")
              eq_refl eq_refl eq_refl)
    as (Hfirst & _ & _ & Hpe & _).
  split; [exact Hfirst|]. rewrite Hpe. reflexivity.
Defined.

Section LifeCycleMoreOnStore.
Import Crypto Stub.

(** A registered node serves an initialization and a second registration
    and is still registered. *)
Lemma flags_never_reset_witness :
  let registered :=
    snd (@register _ (storeNode true) NodeClient "alice" [] "alice" "secret1"
                   None freshNode) in
  isRegistered
    (@serve_requests _ (storeNode true)
       [Init NodeClient "alice" [] None;
        Register NodeClient "alice" [] "alice" "secret1" None]
       registered) = true.
Proof.
  intros registered.
  apply (proj1 (@flags_never_reset _ (storeNode true)
                  [Init NodeClient "alice" [] None;
                   Register NodeClient "alice" [] "alice" "secret1" None]
                  registered)).
  reflexivity.
Defined.

Lemma register_succeeds_iff_witness :
  fst (@register _ (storeNode false) NodeClient "alice" [] "alice" "secret1"
                 None freshNode) = Ok tt.
Proof.
  apply (proj2 (@register_succeeds_iff _ (storeNode false) NodeClient "alice" []
                  "alice" "secret1" None freshNode)).
  split; [reflexivity|]. split; [reflexivity|].
  do 4 eexists. repeat split.
Defined.

(** A node that was never registered initializes from the enrollment
    material found in the store. *)
Lemma init_succeeds_iff_witness :
  isRegistered enrolled = false /\
  fst (@init _ (storeNode false) NodePeer "vp0" [] None enrolled) = Ok tt.
Proof.
  split; [reflexivity|].
  apply (proj2 (@init_succeeds_iff _ (storeNode false) NodePeer "vp0" []
                  None enrolled)).
  split; [reflexivity|].
  do 4 eexists. repeat split.
Defined.

Lemma register_after_init_witness :
  let initialized :=
    snd (@init _ (storeNode true) NodePeer "vp0" [] None enrolled) in
  fst (@register _ (storeNode true) NodePeer "vp0" [] "vp0" "secret" None initialized)
  = Error ErrAlreadyInitialized.
Proof.
  intros initialized.
  rewrite (@register_after_init _ (storeNode true) NodePeer "vp0" [] "vp0" "secret"
             None initialized (fields initialized) (fields initialized));
    reflexivity.
Defined.

(** The enrollment stays in the store of a node whose hook has failed. *)
Lemma register_hook_failure_keeps_effects_witness :
  let run := @register _ (storeNode false) NodeClient "alice" [] "alice" "secret1"
                       (Some failingHook) freshNode in
  fst run = Error (errorString "hook failed") /\
  isRegistered (snd run) = false /\
  enrollment (fields (snd run)) = Some ("alice"%string, "secret1"%string).
Proof.
  intros run. unfold run.
  rewrite (@register_hook_failure_keeps_effects _ (storeNode false)
             NodeClient "alice" [] "alice" "secret1" failingHook freshNode
             (mkStore (Some "alice"%string) false None 0)
             (mkStore (Some "alice"%string) true None 0)
             (mkStore (Some "alice"%string) true (Some ("alice"%string, "secret1"%string)) 0)
             (mkStore (Some "alice"%string) true (Some ("alice"%string, "secret1"%string)) 0)
             (errorString "hook failed"));
    repeat split.
Defined.

End LifeCycleMoreOnStore.

Lemma PKCS7UnPadding_accepts_iff_witness :
  Primitives.PKCS7UnPadding ([Byte.x61] ++ repeat (byte.of_Z 15) 15)
  = Done (Ok [Byte.x61]).
Proof.
  apply (proj2 (PKCS7UnPadding_accepts_iff ([Byte.x61] ++ repeat (byte.of_Z 15) 15)
                                           [Byte.x61])).
  exists 15. split; [unfold Primitives.BlockSize; lia|reflexivity].
Defined.
